(** * canvas_calendar_parser: a shallow embedding of the Canvas ICS report

    The program reads an ICS export, drops some events, rewrites every
    remaining title with three regular expressions and prints the labels
    grouped by day.  This file embeds [canvas_calendar_parser.py] function by
    function and proves the properties stated about it.

    Conventions.
    - A Python [str] is a [list ascii]: a sequence of code points below 256
      (Latin-1).  In that range [\d] is [0-9] and [str.isspace] is the set
      listed in [isspace].
    - [re] is modelled by a backtracking matcher that returns every way a
      pattern can match at a position, in the order Python tries them; the
      first one is the match [re] reports.
    - Code that can raise returns a [result]. *)

From Stdlib Require Import Ascii String.
From stdpp Require Import base option list sorting gmap.

Open Scope list_scope.

Abbreviation str := (list ascii).

(** String literals of the source, as code-point lists. *)
Definition chars (s : string) : str := list_ascii_of_string s.

(** ** Exceptions *)

(** The exception classes the program names or can meet, all of them
    subclasses of [Exception].  An instance of a subclass of a listed class
    counts under that class, as an [except] clause sees it (a
    [UnicodeDecodeError] is a [ValueError]); [FileNotFoundError] is listed
    apart from the other [OSError]s.  [OtherException] is any class that is
    none of the listed ones nor a subclass of one. *)
Inductive exc_class :=
| FileNotFoundError
| OSError
| ValueError
| IndexError
| TypeError
| AttributeError
| OtherException (class_name : str).

#[global] Instance exc_class_eq_dec : EqDecision exc_class.
Proof. solve_decision. Defined.

(** An exception instance: its class and [str(e)]. *)
Record exn := Exn { exn_class : exc_class; exn_str : str }.

#[global] Instance exn_eq_dec : EqDecision exn.
Proof. solve_decision. Defined.

Inductive result (A : Type) :=
| Ok (a : A)
| Raise (e : exn).
Arguments Ok {A} a.
Arguments Raise {A} e.

Global Instance result_ret : MRet result := fun A a => Ok a.
Global Instance result_bind : MBind result := fun A B f r =>
  match r with
  | Ok a => f a
  | Raise e => Raise e
  end.

(** ** Python string operations *)

Module Py.

Definition code (c : ascii) : nat := nat_of_ascii c.

Definition in_range (lo hi c : ascii) : bool :=
  (code lo <=? code c) && (code c <=? code hi).

Definition is_char (a c : ascii) : bool := bool_decide (a = c).

(** [str.isspace] on code points below 256. *)
Definition isspace (c : ascii) : bool :=
  in_range "009" "013" c || in_range "028" "032" c
  || (code c =? 133) || (code c =? 160).

(** [s.startswith(prefix)] *)
Fixpoint startswith (prefix s : str) : bool :=
  match prefix, s with
  | [], _ => true
  | _ :: _, [] => false
  | a :: prefix', c :: s' => is_char a c && startswith prefix' s'
  end.

(** [sub in s] *)
Fixpoint contains (sub s : str) : bool :=
  startswith sub s ||
  match s with
  | [] => false
  | _ :: s' => contains sub s'
  end.

(** [s.replace(old, new)] for a non-empty [old]: scan left to right; at an
    occurrence of [old] emit [new] and skip the rest of the occurrence
    ([skip] counts the characters of it still to pass). *)
Fixpoint replace_go (old new : str) (skip : nat) (s : str) : str :=
  match s with
  | [] => []
  | c :: s' =>
      match skip with
      | S k => replace_go old new k s'
      | O =>
          if startswith old s
          then new ++ replace_go old new (length old - 1) s'
          else c :: replace_go old new 0 s'
      end
  end.

(** [s.replace(old, new)]; an empty [old] matches between all characters. *)
Definition replace (old new s : str) : str :=
  match old with
  | [] => new ++ flat_map (fun c => c :: new) s
  | _ :: _ => replace_go old new 0 s
  end.

Fixpoint lstrip_by (p : ascii -> bool) (s : str) : str :=
  match s with
  | [] => []
  | c :: s' => if p c then lstrip_by p s' else s
  end.

Definition rstrip_by (p : ascii -> bool) (s : str) : str :=
  reverse (lstrip_by p (reverse s)).

(** [s.strip()] *)
Definition strip (s : str) : str := rstrip_by isspace (lstrip_by isspace s).

(** [s.rstrip(cs)] *)
Definition rstrip (cs s : str) : str :=
  rstrip_by (fun c => existsb (fun a => is_char a c) cs) s.

End Py.

(** ** The [re] module *)

Module Re.

(** The patterns of the program use character classes, concatenation,
    greedy counted repetition, one-character lookahead and lookbehind, and
    numbered capturing groups. *)
Inductive regex :=
| Eps
| Chr (cls : ascii -> bool)
| Cat (r1 r2 : regex)
| Rep (r : regex) (lo : nat) (hi : option nat)
| Ahead (cls : ascii -> bool)
| Behind (cls : ascii -> bool)
| Grp (n : nat) (r : regex).

(** Where the matcher stands: the character just before the position (for
    lookbehind), the text still to read, and the groups captured so far
    (most recent first). *)
Record cursor := Cursor {
  prev : option ascii;
  rest : str;
  caps : list (nat * str)
}.

(** One way to match: the text consumed and the cursor after it. *)
Definition alt : Type := str * cursor.

Definition extend (t1 : str) (a : alt) : alt := (t1 ++ a.1, a.2).

Definition then_ (k : cursor -> list alt) (a : alt) : list alt :=
  extend a.1 <$> k a.2.

(** Greedy repetition between [lo] and [hi] times: one more iteration is
    tried before stopping. *)
Fixpoint rep (step : cursor -> list alt) (lo hi : nat) (c : cursor)
  : list alt :=
  match hi with
  | O => if lo is O then [([], c)] else []
  | S hi' =>
      (step c ≫= then_ (rep step (pred lo) hi'))
      ++ (if lo is O then [([], c)] else [])
  end.

(** All the ways [r] matches at [c], in backtracking order. *)
Fixpoint matches (r : regex) (c : cursor) : list alt :=
  match r with
  | Eps => [([], c)]
  | Chr cls =>
      match rest c with
      | x :: s' =>
          if cls x then [([x], Cursor (Some x) s' (caps c))] else []
      | [] => []
      end
  | Cat r1 r2 => matches r1 c ≫= then_ (matches r2)
  | Rep r lo hi =>
      (* an unbounded repetition cannot iterate usefully more often than
         there are characters left *)
      rep (matches r) lo (default (lo + length (rest c)) hi) c
  | Ahead cls =>
      match rest c with
      | x :: _ => if cls x then [([], c)] else []
      | [] => []
      end
  | Behind cls =>
      match prev c with
      | Some x => if cls x then [([], c)] else []
      | None => []
      end
  | Grp n r =>
      (fun a : alt => (a.1, Cursor (prev a.2) (rest a.2) ((n, a.1) :: caps a.2)))
        <$> matches r c
  end.

(** Number of capturing groups of a pattern. *)
Fixpoint ngroups (r : regex) : nat :=
  match r with
  | Eps | Chr _ | Ahead _ | Behind _ => 0
  | Cat r1 r2 => ngroups r1 `max` ngroups r2
  | Rep r _ _ => ngroups r
  | Grp n r => n `max` ngroups r
  end.

(** The character before the position once [t] has been read. *)
Definition prev_after (p : option ascii) (t : str) : option ascii :=
  from_option Some p (last t).

(** The least number of characters a match of the pattern consumes. *)
Fixpoint min_len (r : regex) : nat :=
  match r with
  | Eps | Ahead _ | Behind _ => 0
  | Chr _ => 1
  | Cat r1 r2 => min_len r1 + min_len r2
  | Rep r lo _ => lo * min_len r
  | Grp _ r => min_len r
  end.

(** A match object: what precedes the match, the matched text, what follows
    it and the captures. *)
Record match_ := Match {
  m_pre : str;
  m_text : str;
  m_post : str;
  m_caps : list (nat * str)
}.

Definition lookup_cap (cs : list (nat * str)) (n : nat) : option str :=
  snd <$> find (fun p => bool_decide (p.1 = n)) cs.

(** [m.groups()]: one entry per group of the pattern, [None] for a group
    that did not take part. *)
Definition groups (r : regex) (m : match_) : list (option str) :=
  lookup_cap (m_caps m) <$> seq 1 (ngroups r).

(** Scan for the leftmost position with a match, [p] being the character
    before [s]. *)
Fixpoint search_from (r : regex) (p : option ascii) (s : str)
  : option match_ :=
  match matches r (Cursor p s []) with
  | a :: _ => Some (Match [] a.1 (rest a.2) (caps a.2))
  | [] =>
      match s with
      | [] => None
      | x :: s' =>
          (fun m => Match (x :: m_pre m) (m_text m) (m_post m) (m_caps m))
            <$> search_from r (Some x) s'
      end
  end.

(** [re.search(r, s)] *)
Definition search (r : regex) (s : str) : option match_ :=
  search_from r None s.

(** The successive non-overlapping matches of a pattern, as [finditer]
    finds them, together with the characters between them. *)
Inductive piece :=
| Gap (c : ascii)
| Hit (text : str).

Definition nonempty (a : alt) : bool := negb (bool_decide (a.1 = [])).

(** Walk along [s]; [skip] counts the characters still covered by the last
    match.  After an empty match the next one must not be empty at the same
    position. *)
Fixpoint scan (r : regex) (p : option ascii) (skip : nat) (s : str)
  : list piece :=
  match s with
  | [] =>
      match matches r (Cursor p [] []) with
      | a :: _ => [Hit a.1]
      | [] => []
      end
  | x :: s' =>
      match skip with
      | S k => scan r (Some x) k s'
      | O =>
          let found := matches r (Cursor p s []) in
          match found with
          | [] => Gap x :: scan r (Some x) 0 s'
          | a :: _ =>
              if nonempty a
              then Hit a.1 :: scan r (Some x) (length a.1 - 1) s'
              else
                Hit [] ::
                match filter nonempty found with
                | a' :: _ => Hit a'.1 :: scan r (Some x) (length a'.1 - 1) s'
                | [] => Gap x :: scan r (Some x) 0 s'
                end
          end
      end
  end.

(** [re.findall(r, s)] for a pattern without groups. *)
Definition findall (r : regex) (s : str) : list str :=
  omap (fun pc => match pc with Hit t => Some t | Gap _ => None end)
       (scan r None 0 s).

(** [re.sub(r, repl, s)] for a replacement without group references. *)
Definition sub (r : regex) (repl s : str) : str :=
  flat_map (fun pc => match pc with Hit _ => repl | Gap c => [c] end)
           (scan r None 0 s).

(** Pattern syntax. *)
Definition star (r : regex) : regex := Rep r 0 None.
Definition plus (r : regex) : regex := Rep r 1 None.
Definition at_least (n : nat) (r : regex) : regex := Rep r n None.
Definition times (n : nat) (r : regex) : regex := Rep r n (Some n).
Definition between (lo hi : nat) (r : regex) : regex := Rep r lo (Some hi).
Fixpoint lit (s : str) : regex :=
  match s with
  | [] => Eps
  | [c] => Chr (Py.is_char c)
  | c :: s' => Cat (Chr (Py.is_char c)) (lit s')
  end.

End Re.

Declare Scope re_scope.
Delimit Scope re_scope with re.
Bind Scope re_scope with Re.regex.
Infix "⋅" := Re.Cat (at level 40, left associativity) : re_scope.

(** ** The parser *)

Module CanvasCalendarParser.
Import Py Re.

(** Character classes of the patterns. *)
Definition upper (c : ascii) : bool := in_range "A" "Z" c.      (* [A-Z] *)
Definition lower (c : ascii) : bool := in_range "a" "z" c.      (* [a-z] *)
Definition digit (c : ascii) : bool := in_range "0" "9" c.      (* \d *)
Definition letter (c : ascii) : bool := upper c || lower c.     (* [A-Za-z] *)
Definition alnum (c : ascii) : bool := letter c || digit c.     (* [A-Za-z\d] *)
Definition upper_digit (c : ascii) : bool := upper c || digit c. (* [A-Z\d] *)
Definition sep (c : ascii) : bool :=                            (* [- ] *)
  is_char "-" c || is_char " " c.
Definition sep_colon (c : ascii) : bool :=                      (* [- :] *)
  is_char "-" c || is_char " " c || is_char ":" c.
Definition no_bracket (c : ascii) : bool :=                     (* [^\[\]] *)
  negb (is_char "[" c || is_char "]" c).

(** [(?<=\[)[^\[\]]+(?=\])] *)
Definition class_name_re : regex :=
  (Behind (is_char "[") ⋅ plus (Chr no_bracket) ⋅ Ahead (is_char "]"))%re.

(** [([A-Z]{3,4}[- ]\d{4}(?:[- ][A-Z\d]{0,3}(?=[- :])){0,1})] *)
Definition class_slug_re : regex :=
  Grp 1
    (between 3 4 (Chr upper) ⋅ Chr sep ⋅ times 4 (Chr digit)
     ⋅ between 0 1
         (Chr sep ⋅ between 0 3 (Chr upper_digit) ⋅ Ahead sep_colon))%re.

(** [[s.replace(" ", "-") for s in slugs if s]]: [None] and the empty
    string are falsy. *)
Definition slug_pieces (slugs : list (option str)) : list str :=
  omap (fun s => match s with
                 | Some ((_ :: _) as s) =>
                     Some (replace (chars " ") (chars "-") s)
                 | _ => None
                 end) slugs.

(** [_format_with_slug]: [slugs[0]] on an empty list is an [IndexError]. *)
Definition _format_with_slug (slugs : list (option str)) (assignment : str)
  : result str :=
  let slugs := slug_pieces slugs in
  if bool_decide (length slugs = 1)
  then Ok (default [] (head slugs) ++ chars ": " ++ assignment)
  else
    match slugs with
    | [] => Raise (Exn IndexError (chars "list index out of range"))
    | slug0 :: _ =>
        let base_code := take 8 slug0 in
        if forallb (startswith base_code) slugs
        then Ok (rstrip (chars "-") base_code ++ chars ": " ++ assignment)
        else Ok (slug0 ++ chars ": " ++ assignment)
    end.

(** The cleanup patterns of [_clean_class_name], in order. *)
Definition patterns : list regex :=
  [ (* [- ]*[A-Za-z]*\d[A-Za-z\d]{5,}[- ]* *)
    (star (Chr sep) ⋅ star (Chr letter) ⋅ Chr digit
     ⋅ at_least 5 (Chr alnum) ⋅ star (Chr sep))%re;
    (* [- ]*[A-Z][a-z]+[- ]\d{4}[- ]* *)
    (star (Chr sep) ⋅ Chr upper ⋅ plus (Chr lower) ⋅ Chr sep
     ⋅ times 4 (Chr digit) ⋅ star (Chr sep))%re;
    (* _Combined *)
    lit (chars "_Combined") ].

Definition _clean_class_name (class_name assignment : str) : str :=
  let class_name :=
    foldl (fun class_name pattern => sub pattern [] class_name)
          class_name patterns in
  class_name ++ chars ": " ++ assignment.

Definition _format_event (event_name : str) : result str :=
  let class_name_matches := findall class_name_re event_name in
  match last class_name_matches with
  | None => Ok event_name
  | Some class_name =>
      let assignment :=
        strip (replace (chars "[" ++ class_name ++ chars "]") [] event_name) in
      match search class_slug_re class_name with
      | Some class_slug_match =>
          _format_with_slug (groups class_slug_re class_slug_match) assignment
      | None => Ok (_clean_class_name class_name assignment)
      end
  end.

(** *** Calendar data (the [ics] and [datetime] objects the program reads) *)

(** [datetime.date] *)
Record date := Date { year : nat; month : nat; day : nat }.

(** The start of an event; [dt_date] is its [.date()]. *)
Record datetime := DateTime {
  dt_date : date;
  hour : nat;
  minute : nat;
  second : nat
}.

(** An [ics] event as the program reads it.  [begin] is [None] for a VEVENT
    without DTSTART and [name] is [None] for one without SUMMARY. *)
Record Event := { begin : option datetime; name : option str }.

#[global] Instance date_eq_dec : EqDecision date.
Proof. solve_decision. Defined.

#[global] Instance date_countable : Countable date.
Proof.
  refine (inj_countable' (fun d => (year d, month d, day d))
                         (fun t => Date t.1.1 t.1.2 t.2) _).
  by intros [].
Defined.

(** What the program asks of its environment: [pathlib], [open], the [ics]
    parser and [strftime].  [Calendar] gives the events in the order
    [calendar.events] iterates them. *)
Record world := {
  Path_str : str -> str;                   (* str(Path(file_path)) *)
  Path_exists : str -> result bool;        (* Path(file_path).exists() *)
  read_text : str -> result str;           (* open(..., encoding='utf-8'), f.read() *)
  Calendar : str -> result (list Event);   (* Calendar(text).events *)
  strftime : str -> date -> str            (* day.strftime(format) *)
}.

Definition to_skip : list str := [chars "PAL"; chars "Training"].

(** [event.begin.date()]; [None] has no such method. *)
Definition begin_date (event : Event) : result date :=
  match begin event with
  | Some begin => Ok (dt_date begin)
  | None =>
      Raise (Exn AttributeError
               (chars "'NoneType' object has no attribute 'date'"))
  end.

(** [any(item in event_details for item in items)]; [item in None] raises
    [TypeError]. *)
Fixpoint any_in (items : list str) (event_details : option str)
  : result bool :=
  match items with
  | [] => Ok false
  | item :: items' =>
      match event_details with
      | Some details =>
          if contains item details then Ok true
          else any_in items' event_details
      | None =>
          Raise (Exn TypeError
                   (chars "argument of type 'NoneType' is not iterable"))
      end
  end.

(** The loop of [parse_calendar] over [calendar.events].  [re.findall] on
    [None] raises [TypeError]. *)
Fixpoint group_events (events : list Event)
    (events_by_day : gmap date (list str)) : result (gmap date (list str)) :=
  match events with
  | [] => Ok events_by_day
  | event :: events' =>
      event_date ← begin_date event;
      let event_details := name event in
      skip ← any_in to_skip event_details;
      if (skip : bool)
      then group_events events' events_by_day
      else
        event_details ←
          match event_details with
          | Some details => _format_event details
          | None =>
              Raise (Exn TypeError
                       (chars "expected string or bytes-like object"))
          end;
        group_events events'
          (<[event_date :=
               default [] (events_by_day !! event_date) ++ [event_details]]>
             events_by_day)
  end.

Definition parse_calendar (w : world) (file_path : str)
  : result (gmap date (list str)) :=
  file_exists ← Path_exists w file_path;
  if negb file_exists
  then Raise (Exn FileNotFoundError
                (chars "Could not find ICS file: " ++ Path_str w file_path))
  else
    match text ← read_text w file_path; Calendar w text with
    | Raise e =>
        Raise (Exn ValueError
                 (chars "Failed to parse ICS file: " ++ exn_str e))
    | Ok calendar => group_events calendar ∅
    end.

(** *** Ordering and printing *)

(** [<] on sequences: decided at the first position where they differ; a
    proper prefix is smaller. *)
Fixpoint lex_ltb {A} `{EqDecision A} (ltb : A -> A -> bool)
    (l1 l2 : list A) : bool :=
  match l1, l2 with
  | _, [] => false
  | [], _ :: _ => true
  | x :: l1', y :: l2' =>
      if bool_decide (x = y) then lex_ltb ltb l1' l2' else ltb x y
  end.

Definition char_ltb (a b : ascii) : bool := code a <? code b.
Definition str_ltb : str -> str -> bool := lex_ltb char_ltb.
Definition date_ltb (a b : date) : bool :=
  lex_ltb Nat.ltb [year a; month a; day a] [year b; month b; day b].
(** [<] on the [(day, day_events)] tuples of [events.items()]. *)
Definition item_ltb (a b : date * list str) : bool :=
  if bool_decide (a.1 = b.1) then lex_ltb str_ltb a.2 b.2
  else date_ltb a.1 b.1.

(** [x] may stand before [y] in ascending order: [y < x] is false. *)
Definition ascending {A} (ltb : A -> A -> bool) : relation A :=
  fun x y => ltb y x = false.

#[global] Instance ascending_dec {A} (ltb : A -> A -> bool) x y :
  Decision (ascending ltb x y).
Proof. unfold ascending. apply _. Defined.

(** [sorted(l)]: ascending for [<]. *)
Definition sorted {A} (ltb : A -> A -> bool) (l : list A) : list A :=
  merge_sort (ascending ltb) l.

Definition nl : ascii := "010".

(** [print(line)] appends the line and a newline to standard output. *)
Definition print (line : str) : str := line ++ [nl].

(** The days in the order [main] prints them, each with its labels in the
    order they are printed. *)
Definition blocks (events : gmap date (list str)) : list (date * list str) :=
  (fun it => (it.1, sorted str_ltb it.2))
    <$> sorted item_ltb (map_to_list events).

Definition render (w : world) (bs : list (date * list str)) : str :=
  flat_map
    (fun b =>
       print ([nl] ++ chars "-- " ++ strftime w (chars "%B %d, %Y (%A)") b.1
              ++ chars " --")
       ++ flat_map print b.2)
    bs.

(** How the process ends. *)
Inductive status :=
| Finished                   (* [main] returns: exit status 0 *)
| SysExit (code : nat)       (* [sys.exit(code)] *)
| Uncaught (e : exn).        (* traceback, exit status 1 *)

Record outcome := Outcome { stdout : str; exit_status : status }.

(** [except (FileNotFoundError, ValueError)] *)
Definition caught (e : exn) : bool :=
  match exn_class e with
  | FileNotFoundError | ValueError => true
  | _ => false
  end.

Definition main (w : world) (argv : list str) : outcome :=
  let file_path :=
    if bool_decide (1 < length argv) then default [] (argv !! 1)
    else chars "canvas_export.ics" in
  match parse_calendar w file_path with
  | Ok events => Outcome (render w (blocks events)) Finished
  | Raise e =>
      if caught e
      then
        Outcome
          (print (chars "Error: " ++ exn_str e)
           ++ (if bool_decide
                    (exn_str e
                     = chars "Could not find ICS file: canvas_export.ics")
               then print (chars "Specify a file or rename it to 'canvas_export.ics' and place in this directory.")
               else []))
          (SysExit 1)
      else Outcome [] (Uncaught e)
  end.

End CanvasCalendarParser.

(** * Vocabulary of the statements *)

Section vocabulary.
Import Py Re CanvasCalendarParser.

(** [block] is a bracketed substring of [s]: a non-empty text without
    brackets that stands between ["["] and ["]"] in [s]. *)
Definition bracketed (block s : str) : Prop :=
  block <> [] /\ Forall (fun x => no_bracket x = true) block
  /\ exists u v, s = u ++ chars "[" ++ block ++ chars "]" ++ v.

(** The text of a title once every copy of the bracketed block is taken
    out and the white space around is trimmed. *)
Definition assignment_of (event_name class_name : str) : str :=
  strip (replace (chars "[" ++ class_name ++ chars "]") [] event_name).

(** The optional part of the course-code pattern, [[- ][A-Z\d]{0,3}(?=[- :])]. *)
Definition suffix_re : regex :=
  (Chr sep ⋅ between 0 3 (Chr upper_digit) ⋅ Ahead sep_colon)%re.

(** [sub] occurs in [s]. *)
Definition substring (sub s : str) : Prop := exists u v, s = u ++ sub ++ v.

(** An event that has a start and a title, and the [ics] event it is. *)
Record entry := Entry { start : datetime; title : str }.

Definition ics_event (event : entry) : Event :=
  {| begin := Some (start event); name := Some (title event) |}.

(** The filter of [parse_calendar]: the raw title has neither word. *)
Definition kept (event : entry) : bool :=
  negb (contains (chars "PAL") (title event))
  && negb (contains (chars "Training") (title event)).

(** The label [_format_event] gives a title. *)
Definition label_of (event_name : str) : str :=
  match _format_event event_name with
  | Ok label => label
  | Raise _ => event_name
  end.

(** The labels of the kept events of one day, in calendar order. *)
Definition labels_on (day : date) (events : list entry) : list str :=
  omap (fun event =>
          if kept event && bool_decide (dt_date (start event) = day)
          then Some (label_of (title event)) else None)
       events.

(** A strict total order given by its boolean [<]. *)
Class StrictTotal {A} (ltb : A -> A -> bool) := {
  ltb_irrefl x : ltb x x = false;
  ltb_trans x y z : ltb x y = true -> ltb y z = true -> ltb x z = true;
  ltb_total x y : ltb x y = true \/ x = y \/ ltb y x = true
}.

Definition date_lt (a b : date) : Prop := date_ltb a b = true.

(** The path [main] works on: the first command-line argument, or the
    default file name. *)
Definition path_argument (argv : list str) : str :=
  if bool_decide (1 < length argv) then default [] (argv !! 1)
  else chars "canvas_export.ics".

Definition hint_line : str :=
  chars "Specify a file or rename it to 'canvas_export.ics' and place in this directory.".

(** Text on standard output, given line by line: every line is followed by
    a newline character. *)
Definition lines (ls : list str) : str :=
  ls ≫= (fun line => line ++ ["010"%char]).

(** The header line of a day. *)
Definition header (w : world) (day : date) : str :=
  chars "-- " ++ strftime w (chars "%B %d, %Y (%A)") day ++ chars " --".

(** The lines of a report: for each day an empty line, the header of the
    day and the labels of the day. *)
Definition report_lines (w : world) (bs : list (date * list str))
  : list str :=
  bs ≫= (fun b => [[]; header w b.1] ++ b.2).

(** A small calendar to run the program on. *)
Definition example_events : list entry :=
  [ {| start := DateTime (Date 2024 10 3) 9 0 0;
       title := chars "HW 2 [MATH-2164-001-X]" |};
    {| start := DateTime (Date 2024 9 30) 9 0 0;
       title := chars "Quiz [CS 1234: Intro]" |};
    {| start := DateTime (Date 2024 10 3) 23 59 0;
       title := chars "Essay [ENGL-1101]" |};
    {| start := DateTime (Date 2024 10 3) 23 59 0;
       title := chars "PAL session [ENGL-1101]" |} ].

(** Dates as [strftime] writes them, for the days of the examples. *)
Definition example_strftime (format : str) (day : date) : str :=
  if bool_decide (day = Date 2024 9 30)
  then chars "September 30, 2024 (Monday)"
  else if bool_decide (day = Date 2024 10 3)
  then chars "October 03, 2024 (Thursday)"
  else chars "October 04, 2024 (Friday)".

(** A world with one calendar file, [a.ics], and one file that is not a
    calendar, [notes.txt]. *)
Definition example_world : world := {|
  Path_str p := p;
  Path_exists p :=
    Ok (bool_decide (p = chars "a.ics")
        || bool_decide (p = chars "notes.txt"));
  read_text p :=
    if bool_decide (p = chars "a.ics") then Ok (chars "BEGIN:VCALENDAR")
    else Ok (chars "hello");
  Calendar text :=
    if bool_decide (text = chars "BEGIN:VCALENDAR")
    then Ok (ics_event <$> example_events)
    else Raise (Exn (OtherException (chars "ParserError"))
                    (chars "no VCALENDAR"));
  strftime := example_strftime
|}.

(** Every match of the pattern holds a digit. *)
Definition needs_digit (r : regex) : Prop :=
  forall c a, a ∈ matches r c -> exists x, x ∈ a.1 /\ digit x = true.

(** The label head [_format_event] makes of a class-name block: the course
    code with hyphens when there is one, else the cleaned block. *)
Definition class_label (class_name : str) : str :=
  match search class_slug_re class_name with
  | Some m => replace (chars " ") (chars "-") (m_text m)
  | None =>
      foldl (fun class_name pattern => sub pattern [] class_name)
            class_name patterns
  end.

(** The first two cleanup patterns by name: random IDs,
    [[- ]*[A-Za-z]*\d[A-Za-z\d]{5,}[- ]*], and semester identifiers,
    [[- ]*[A-Z][a-z]+[- ]\d{4}[- ]*]. *)
Definition random_id_re : regex :=
  (star (Chr sep) ⋅ star (Chr letter) ⋅ Chr digit
   ⋅ at_least 5 (Chr alnum) ⋅ star (Chr sep))%re.

Definition semester_re : regex :=
  (star (Chr sep) ⋅ Chr upper ⋅ plus (Chr lower) ⋅ Chr sep
   ⋅ times 4 (Chr digit) ⋅ star (Chr sep))%re.

(** [[^\d]] on code points below 256. *)
Definition non_digit (c : ascii) : bool := negb (digit c).

(** At the start of [t ++ s] the first thing the pattern finds is [t]. *)
Definition takes (r : regex) (p : option ascii) (t s : str) : Prop :=
  head (matches r (Cursor p (t ++ s) []))
  = Some (t, Cursor (prev_after p t) s []).

(** The text does not end with a separator. *)
Definition no_sep_at_end (a : str) : Prop :=
  a = [] \/ exists a' z, a = a' ++ [z] /\ sep z = false.

(** The text does not start with a separator, a letter or a digit. *)
Definition clear_start (b : str) : Prop :=
  b = [] \/ exists q b', b = q :: b' /\ sep q = false /\ alnum q = false.

(** All the labels of a report, in the order they are printed. *)
Definition printed_labels (bs : list (date * list str)) : list str :=
  bs ≫= snd.

(** The example world with the calendar listed backwards. *)
Definition reversed_world : world := {|
  Path_str := Path_str example_world;
  Path_exists := Path_exists example_world;
  read_text := read_text example_world;
  Calendar text :=
    if bool_decide (text = chars "BEGIN:VCALENDAR")
    then Ok (ics_event <$> reverse example_events)
    else Calendar example_world text;
  strftime := strftime example_world
|}.

(** A world whose calendar holds only events the filter drops. *)
Definition filtered_events : list entry :=
  [ {| start := DateTime (Date 2024 10 3) 9 0 0;
       title := chars "PAL session [ENGL-1101]" |};
    {| start := DateTime (Date 2024 10 4) 9 0 0;
       title := chars "Safety Training quiz" |} ].

Definition filtered_world : world := {|
  Path_str p := p;
  Path_exists p := Ok true;
  read_text p := Ok (chars "text");
  Calendar text := Ok (ics_event <$> filtered_events);
  strftime := example_strftime
|}.

(** A world whose file exists but is not UTF-8 text: reading it fails with
    a [UnicodeDecodeError], which is a [ValueError]. *)
Definition unreadable_world : world := {|
  Path_str p := p;
  Path_exists p := Ok true;
  read_text p := Raise (Exn ValueError (chars "invalid start byte"));
  Calendar text := Ok [];
  strftime := example_strftime
|}.

(** A world whose calendar has, after an event with a title, one without
    SUMMARY. *)
Definition untitled_world : world := {|
  Path_str p := p;
  Path_exists p := Ok true;
  read_text p := Ok (chars "BEGIN:VCALENDAR");
  Calendar text :=
    Ok [ {| begin := Some (DateTime (Date 2024 10 3) 9 0 0);
            name := Some (chars "Essay [ENGL-1101]") |};
         {| begin := Some (DateTime (Date 2024 10 4) 9 0 0);
            name := None |} ];
  strftime := example_strftime
|}.

End vocabulary.

(** * Properties *)

(** ** The matcher *)

Section matcher.
Import Re.
Implicit Types (r : regex) (c : cursor) (a : alt).

Lemma rep_inv step lo hi c a :
  a ∈ rep step lo hi c ->
  (lo = 0 /\ a = ([], c))
  \/ exists hi' a1 a2,
       hi = S hi' /\ a1 ∈ step c /\ a2 ∈ rep step (pred lo) hi' a1.2
       /\ a = extend a1.1 a2.
Proof.
  destruct hi as [|hi']; simpl.
  - destruct lo; [|by intros ?%elem_of_nil].
    intros ->%list_elem_of_singleton. by left.
  - intros [Hin|Hin]%elem_of_app.
    + apply list_elem_of_bind in Hin as (a1 & Hin & Ha1).
      apply list_elem_of_fmap in Hin as (a2 & -> & Ha2).
      right. by exists hi', a1, a2.
    + destruct lo; [|by apply elem_of_nil in Hin].
      apply list_elem_of_singleton in Hin as ->. by left.
Qed.

(** A match consumes a prefix of the text at the cursor. *)
Lemma matches_consumes r c a :
  a ∈ matches r c -> rest c = a.1 ++ rest a.2.
Proof.
  revert c a. induction r as [|cls|r1 IH1 r2 IH2|r IH lo hi|cls|cls|n r IH];
    intros c a; simpl.
  - by intros ->%list_elem_of_singleton.
  - destruct (rest c) as [|x s'] eqn:Hs; [by intros ?%elem_of_nil|].
    destruct (cls x); [|by intros ?%elem_of_nil].
    by intros ->%list_elem_of_singleton.
  - intros (a1 & Hin & Ha1)%list_elem_of_bind.
    apply list_elem_of_fmap in Hin as (a2 & -> & Ha2). simpl.
    rewrite (IH1 _ _ Ha1), (IH2 _ _ Ha2). by rewrite (assoc_L (++)).
  - generalize (default (lo + length (rest c)) hi). intros k.
    revert lo c a. induction k as [|k IHk]; intros lo c a Hin;
      apply rep_inv in Hin
        as [[_ ->]|(k' & a1 & a2 & Hk & Ha1 & Ha2 & ->)]; try done.
    injection Hk as <-. simpl.
    rewrite (IH _ _ Ha1), (IHk _ _ _ Ha2). by rewrite (assoc_L (++)).
  - destruct (rest c) as [|x s'] eqn:Hs; [by intros ?%elem_of_nil|].
    destruct (cls x); [|by intros ?%elem_of_nil].
    by intros ->%list_elem_of_singleton.
  - destruct (prev c) as [x|]; [|by intros ?%elem_of_nil].
    destruct (cls x); [|by intros ?%elem_of_nil].
    by intros ->%list_elem_of_singleton.
  - intros (a1 & -> & Ha1)%list_elem_of_fmap. simpl. by apply IH.
Qed.

(** A match consumes at least [min_len] characters. *)
Lemma matches_min_len r c a :
  a ∈ matches r c -> min_len r <= length a.1.
Proof.
  revert c a. induction r as [|cls|r1 IH1 r2 IH2|r IH lo hi|cls|cls|n r IH];
    intros c a; simpl.
  - intros _. lia.
  - destruct (rest c) as [|x s'] eqn:Hs; [by intros ?%elem_of_nil|].
    destruct (cls x); [|by intros ?%elem_of_nil].
    by intros ->%list_elem_of_singleton.
  - intros (a1 & Hin & Ha1)%list_elem_of_bind.
    apply list_elem_of_fmap in Hin as (a2 & -> & Ha2). simpl.
    rewrite length_app. apply IH1 in Ha1. apply IH2 in Ha2. lia.
  - generalize (default (lo + length (rest c)) hi). intros k.
    revert lo c a. induction k as [|k IHk]; intros lo c a Hin;
      apply rep_inv in Hin
        as [[-> ->]|(k' & a1 & a2 & Hk & Ha1 & Ha2 & ->)];
      simpl; try lia; try done.
    injection Hk as <-. rewrite length_app.
    apply IH in Ha1. apply IHk in Ha2. destruct lo; simpl in *; lia.
  - intros _. lia.
  - intros _. lia.
  - intros (a1 & -> & Ha1)%list_elem_of_fmap. simpl. by apply (IH c).
Qed.

Lemma matches_Cat_inv r1 r2 c a :
  a ∈ matches (Cat r1 r2) c ->
  exists a1 a2,
    a1 ∈ matches r1 c /\ a2 ∈ matches r2 a1.2 /\ a = extend a1.1 a2.
Proof.
  simpl. intros (a1 & Hin & Ha1)%list_elem_of_bind.
  apply list_elem_of_fmap in Hin as (a2 & -> & Ha2). by exists a1, a2.
Qed.

Lemma matches_Chr_inv cls c a :
  a ∈ matches (Chr cls) c ->
  exists x s', rest c = x :: s' /\ cls x = true
               /\ a = ([x], Cursor (Some x) s' (caps c)).
Proof.
  simpl. destruct (rest c) as [|x s']; [by intros ?%elem_of_nil|].
  destruct (cls x) eqn:Hx; [|by intros ?%elem_of_nil].
  intros ->%list_elem_of_singleton. by exists x, s'.
Qed.

Lemma matches_Ahead_inv cls c a :
  a ∈ matches (Ahead cls) c ->
  a = ([], c) /\ exists x s', rest c = x :: s' /\ cls x = true.
Proof.
  simpl. destruct (rest c) as [|x s']; [by intros ?%elem_of_nil|].
  destruct (cls x) eqn:Hx; [|by intros ?%elem_of_nil].
  intros ->%list_elem_of_singleton. split; [done|]. by exists x, s'.
Qed.

Lemma matches_Behind_inv cls c a :
  a ∈ matches (Behind cls) c ->
  a = ([], c) /\ exists x, prev c = Some x /\ cls x = true.
Proof.
  simpl. destruct (prev c) as [x|]; [|by intros ?%elem_of_nil].
  destruct (cls x) eqn:Hx; [|by intros ?%elem_of_nil].
  intros ->%list_elem_of_singleton. split; [done|]. by exists x.
Qed.

(** A repeated character class consumes characters of the class only. *)
Lemma rep_Chr_inv cls lo hi c a :
  a ∈ rep (matches (Chr cls)) lo hi c ->
  Forall (fun x => cls x = true) a.1 /\ lo <= length a.1 <= hi
  /\ caps a.2 = caps c.
Proof.
  revert lo c a. induction hi as [|hi IH]; intros lo c a Hin;
    apply rep_inv in Hin
      as [[-> ->]|(k' & a1 & a2 & Hk & Ha1 & Ha2 & ->)]; simpl;
    try done; try (split; [done|split; [lia|done]]).
  injection Hk as <-.
  apply matches_Chr_inv in Ha1 as (x & s' & _ & Hx & ->).
  apply IH in Ha2 as (Hall & Hlen & Hcaps). simpl in *.
  split; [by constructor|]. split; [lia|done].
Qed.

Lemma prev_after_cons p x t :
  prev_after p (x :: t) = prev_after (Some x) t.
Proof. unfold prev_after. rewrite last_cons. by destruct (last t). Qed.

Lemma prev_after_app p t1 t2 :
  prev_after p (t1 ++ t2) = prev_after (prev_after p t1) t2.
Proof.
  revert p. induction t1 as [|x t1 IH]; intros p; [done|].
  simpl. by rewrite !prev_after_cons.
Qed.

(** Conversely every run of class characters of an allowed length is one
    of the alternatives. *)
Lemma rep_Chr_intro cls lo hi p t s cs :
  Forall (fun x => cls x = true) t -> lo <= length t <= hi ->
  (t, Cursor (prev_after p t) s cs)
    ∈ rep (matches (Chr cls)) lo hi (Cursor p (t ++ s) cs).
Proof.
  revert lo hi p. induction t as [|x t IH]; intros lo hi p Hall Hlen.
  - simpl in Hlen. assert (lo = 0) as -> by lia.
    destruct hi; simpl; [by left|]. apply elem_of_app. right. by left.
  - destruct hi as [|hi]; simpl in Hlen; [lia|].
    apply Forall_cons in Hall as [Hx Hall]. simpl.
    apply elem_of_app. left. rewrite Hx. simpl.
    apply elem_of_app. left. apply list_elem_of_fmap.
    exists (t, Cursor (prev_after (Some x) t) s cs). split.
    + by rewrite prev_after_cons.
    + apply IH; [done|lia].
Qed.

(** [scan] steps over the characters of a match it has reported. *)
Lemma scan_skip r p t s :
  scan r p (length t) (t ++ s) = scan r (prev_after p t) 0 s.
Proof.
  revert p. induction t as [|x t IH]; intros p; [done|].
  simpl. by rewrite IH, prev_after_cons.
Qed.

Lemma scan_gap r p x s :
  matches r (Cursor p (x :: s) []) = [] ->
  scan r p 0 (x :: s) = Gap x :: scan r (Some x) 0 s.
Proof. simpl. by intros ->. Qed.

Lemma scan_hit r p t s a l :
  matches r (Cursor p (t ++ s) []) = a :: l -> a.1 = t -> t <> [] ->
  scan r p 0 (t ++ s) = Hit t :: scan r (prev_after p t) 0 s.
Proof.
  intros Hm Ht Hne. destruct t as [|x t]; [done|].
  simpl in *. rewrite Hm. unfold nonempty. rewrite Ht. simpl.
  rewrite Nat.sub_0_r. by rewrite scan_skip, prev_after_cons.
Qed.

(** Where nothing matches, [scan] copies the text. *)
Lemma scan_gaps r p u s :
  (forall u1 x u2,
      u = u1 ++ x :: u2 ->
      matches r (Cursor (prev_after p u1) (x :: u2 ++ s) []) = []) ->
  scan r p 0 (u ++ s) = (Gap <$> u) ++ scan r (prev_after p u) 0 s.
Proof.
  revert p. induction u as [|x u IH]; intros p Hno; [done|].
  rewrite <- app_comm_cons, scan_gap by apply (Hno [] x u eq_refl).
  rewrite IH, prev_after_cons; [done|].
  intros u1 y u2 ->. rewrite <- (prev_after_cons p).
  by apply (Hno (x :: u1) y u2).
Qed.

Lemma scan_all_gaps r p s :
  (forall u v,
      s = u ++ v -> matches r (Cursor (prev_after p u) v []) = []) ->
  scan r p 0 s = Gap <$> s.
Proof.
  revert p. induction s as [|x s IH]; intros p Hno.
  - specialize (Hno [] [] eq_refl). change (prev_after p []) with p in Hno.
    simpl. by rewrite Hno.
  - rewrite scan_gap by apply (Hno [] (x :: s) eq_refl).
    rewrite IH; [done|]. intros u v ->.
    rewrite <- (prev_after_cons p). by apply (Hno (x :: u) v).
Qed.

(** If [scan] reports no match, there is none at any position. *)
Lemma scan_no_hit r p s :
  Forall (fun pc => if pc is Hit _ then False else True) (scan r p 0 s) ->
  forall u v,
    s = u ++ v -> matches r (Cursor (prev_after p u) v []) = [].
Proof.
  revert p. induction s as [|x s IH]; intros p Hall u v Huv.
  - symmetry in Huv. apply app_eq_nil in Huv as [-> ->].
    change (prev_after p []) with p.
    simpl in Hall. destruct (matches r (Cursor p [] [])); [done|].
    by apply Forall_cons in Hall as [[] _].
  - simpl in Hall.
    destruct (matches r (Cursor p (x :: s) [])) as [|a l] eqn:Hm.
    + apply Forall_cons in Hall as [_ Hall].
      destruct u as [|y u]; simpl in Huv.
      * by subst v.
      * injection Huv as <- ->. rewrite prev_after_cons. by apply IH.
    + destruct (nonempty a); by apply Forall_cons in Hall as [[] _].
Qed.

(** What [re.search] reports is the first alternative at some position. *)
Lemma search_from_inv r p s m :
  search_from r p s = Some m ->
  exists p' a l,
    matches r (Cursor p' (m_text m ++ m_post m) []) = a :: l
    /\ m_text m = a.1 /\ m_post m = rest a.2 /\ m_caps m = caps a.2
    /\ s = m_pre m ++ m_text m ++ m_post m.
Proof.
  revert p m. induction s as [|x s IH]; intros p m; simpl.
  - destruct (matches r (Cursor p [] [])) as [|a l] eqn:Hm; [done|].
    intros [= <-]. simpl.
    pose proof (matches_consumes r (Cursor p [] []) a) as Hc.
    rewrite Hm in Hc. specialize (Hc (list_elem_of_here a l)). simpl in Hc.
    exists p, a, l. by rewrite <- Hc.
  - destruct (matches r (Cursor p (x :: s) [])) as [|a l] eqn:Hm.
    + destruct (search_from r (Some x) s) as [m'|] eqn:Hs; [|done].
      intros [= <-]. simpl.
      destruct (IH _ _ Hs) as (p' & a & l & ? & ? & ? & ? & ->).
      by exists p', a, l.
    + intros [= <-]. simpl.
      pose proof (matches_consumes r (Cursor p (x :: s) []) a) as Hc.
      rewrite Hm in Hc. specialize (Hc (list_elem_of_here a l)). simpl in Hc.
      exists p, a, l. by rewrite <- Hc.
Qed.

End matcher.

(** ** Formatting a title *)

Section format.
Import Py Re CanvasCalendarParser.

(** The course-code pattern is one group around everything else, and a
    course code has at least eight characters. *)
Lemma class_slug_search class_name m :
  search class_slug_re class_name = Some m ->
  groups class_slug_re m = [Some (m_text m)] /\ 8 <= length (m_text m).
Proof.
  intros (p & a & l & Hm & Ht & _ & Hc & _)%search_from_inv.
  assert (a ∈ matches class_slug_re (Cursor p (m_text m ++ m_post m) []))
    as Hin by (rewrite Hm; left).
  split.
  - unfold class_slug_re in Hin. simpl in Hin.
    apply list_elem_of_fmap in Hin as (a' & -> & _).
    unfold groups. by rewrite Hc, Ht.
  - rewrite Ht. by apply matches_min_len in Hin.
Qed.

Lemma _format_with_slug_single g assignment :
  g <> [] ->
  _format_with_slug [Some g] assignment
  = Ok (replace (chars " ") (chars "-") g ++ chars ": " ++ assignment).
Proof. by destruct g. Qed.

Lemma startswith_take n s : startswith (take n s) s = true.
Proof.
  revert n. induction s as [|c s IH]; intros [|n]; simpl; try done.
  unfold is_char. by rewrite bool_decide_eq_true_2, IH.
Qed.

(** Handed two pieces that begin alike, [_format_with_slug] keeps the first
    eight characters of the first.  [_format_event] never hands it more than
    one piece (see [class_slug_search]). *)
Lemma _format_with_slug_shared_base s1 s2 assignment :
  s1 <> [] -> s2 <> [] ->
  startswith (take 8 (replace (chars " ") (chars "-") s1))
             (replace (chars " ") (chars "-") s2) = true ->
  _format_with_slug [Some s1; Some s2] assignment
  = Ok (rstrip (chars "-") (take 8 (replace (chars " ") (chars "-") s1))
        ++ chars ": " ++ assignment).
Proof.
  intros H1 H2 Hsw. destruct s1 as [|x1 s1], s2 as [|x2 s2]; try done.
  unfold _format_with_slug, slug_pieces.
  cbn [omap list_omap length bool_decide decide_rel forallb].
  rewrite bool_decide_eq_false_2 by done.
  by rewrite startswith_take, Hsw.
Qed.

(** [_format_event], one equation per path through it. *)
Lemma _format_event_plain event_name :
  findall class_name_re event_name = [] ->
  _format_event event_name = Ok event_name.
Proof. unfold _format_event. by intros ->. Qed.

Lemma _format_event_slug event_name class_name m :
  last (findall class_name_re event_name) = Some class_name ->
  search class_slug_re class_name = Some m ->
  _format_event event_name
  = Ok (replace (chars " ") (chars "-") (m_text m) ++ chars ": "
        ++ strip (replace (chars "[" ++ class_name ++ chars "]") []
                          event_name)).
Proof.
  intros Hlast Hm. unfold _format_event. rewrite Hlast, Hm.
  destruct (class_slug_search _ _ Hm) as [-> Hlen].
  apply _format_with_slug_single. intros Hnil. rewrite Hnil in Hlen.
  simpl in Hlen. lia.
Qed.

Lemma _format_event_clean event_name class_name :
  last (findall class_name_re event_name) = Some class_name ->
  search class_slug_re class_name = None ->
  _format_event event_name
  = Ok (_clean_class_name class_name
          (strip (replace (chars "[" ++ class_name ++ chars "]") []
                          event_name))).
Proof. intros Hlast Hm. unfold _format_event. by rewrite Hlast, Hm. Qed.

Lemma _format_event_total event_name :
  exists label, _format_event event_name = Ok label.
Proof.
  destruct (last (findall class_name_re event_name)) as [class_name|] eqn:Hl.
  - destruct (search class_slug_re class_name) as [m|] eqn:Hm.
    + eexists. by eapply _format_event_slug.
    + eexists. by eapply _format_event_clean.
  - eexists. apply _format_event_plain. by apply last_None.
Qed.

End format.

(** ** Bracketed blocks *)

Section blocks.
Import Py Re CanvasCalendarParser.

Lemma is_char_true a c : is_char a c = true <-> a = c.
Proof. unfold is_char. apply bool_decide_eq_true. Qed.

(** The class-name pattern matches exactly a bracket-free, non-empty text
    that stands between ["["] and ["]"]. *)
Lemma class_name_matches_inv p s a :
  a ∈ matches class_name_re (Cursor p s []) ->
  p = Some "["%char /\ a.1 <> []
  /\ Forall (fun x => no_bracket x = true) a.1
  /\ exists v, s = a.1 ++ chars "]" ++ v.
Proof.
  intros Hin. pose proof (matches_consumes _ _ _ Hin) as Hs. simpl in Hs.
  unfold class_name_re in Hin.
  apply matches_Cat_inv in Hin as (a12 & a3 & Hin & Ha3 & ->).
  apply matches_Cat_inv in Hin as (a1 & a2 & Ha1 & Ha2 & ->).
  apply matches_Behind_inv in Ha1 as [-> (x & Hp & Hx)].
  apply is_char_true in Hx as <-. simpl in Hp.
  apply rep_Chr_inv in Ha2 as (Hall & Hlen & _).
  apply matches_Ahead_inv in Ha3 as [-> (y & s' & Hy & Hc)].
  apply is_char_true in Hc as <-. simpl in *.
  rewrite app_nil_r in *. rewrite Hy in Hs.
  split; [done|]. split; [by destruct (a2.1); simpl in *; [lia|]|].
  split; [done|]. by exists s'.
Qed.

Lemma class_name_matches_intro block v :
  block <> [] -> Forall (fun x => no_bracket x = true) block ->
  matches class_name_re (Cursor (Some "["%char) (block ++ chars "]" ++ v) [])
  <> [].
Proof.
  intros Hne Hall Hnil.
  set (c1 := Cursor (prev_after (Some "["%char) block) (chars "]" ++ v) []).
  assert (extend block ([], c1)
          ∈ matches class_name_re
              (Cursor (Some "["%char) (block ++ chars "]" ++ v) [])) as Hin.
  { unfold class_name_re. cbn [matches].
    apply list_elem_of_bind. exists (block, c1). split.
    - unfold then_. simpl. by left.
    - apply list_elem_of_bind. eexists. split; [|simpl; by left].
      unfold then_. apply list_elem_of_fmap. exists (block, c1).
      split; [done|]. apply rep_Chr_intro; [done|]. simpl.
      rewrite length_app. destruct block; simpl in *; [done|lia]. }
  rewrite Hnil in Hin. by apply elem_of_nil in Hin.
Qed.

(** The text of a block is fixed by where it starts. *)
Lemma block_unique (t1 t2 v1 v2 : str) :
  Forall (fun x => no_bracket x = true) t1 ->
  Forall (fun x => no_bracket x = true) t2 ->
  t1 ++ chars "]" ++ v1 = t2 ++ chars "]" ++ v2 -> t1 = t2 /\ v1 = v2.
Proof.
  revert t2. induction t1 as [|x t1 IH]; intros [|y t2] H1 H2 Heq;
    simpl in *.
  - by injection Heq as ->.
  - injection Heq as <- _. by apply Forall_cons in H2 as [? _].
  - injection Heq as -> _. by apply Forall_cons in H1 as [? _].
  - injection Heq as -> Heq.
    apply Forall_cons in H1 as [_ H1]. apply Forall_cons in H2 as [_ H2].
    by destruct (IH _ H1 H2 Heq) as [-> ->].
Qed.

(** [findall] finds nothing exactly when the title has no bracketed
    substring. *)
Lemma findall_nil_iff event_name :
  findall class_name_re event_name = []
  <-> forall block, ~ bracketed block event_name.
Proof.
  unfold findall. split.
  - intros Hnil block (Hne & Hall & u & v & ->).
    assert (Forall (fun pc => if pc is Hit _ then False else True)
                   (scan class_name_re None 0
                      (u ++ chars "[" ++ block ++ chars "]" ++ v))) as Hno.
    { apply Forall_forall. intros [c|t] Hin; [done|].
      assert (t ∈ @nil str) as Ht; [|by apply elem_of_nil in Ht].
      rewrite <- Hnil. apply list_elem_of_omap. by exists (Hit t). }
    apply (class_name_matches_intro block v Hne Hall).
    pose proof (scan_no_hit _ _ _ Hno (u ++ chars "[")
                  (block ++ chars "]" ++ v)) as Hm.
    rewrite prev_after_app in Hm. apply Hm. by rewrite <- (assoc_L (++)).
  - intros Hno. rewrite scan_all_gaps.
    + clear Hno. by induction event_name.
    + intros u v ->.
      destruct (matches class_name_re (Cursor (prev_after None u) v []))
        as [|a l] eqn:Hm; [done|].
      assert (a ∈ a :: l) as Hin by left. rewrite <- Hm in Hin.
      apply class_name_matches_inv in Hin as (Hp & Hne & Hall & v' & Hv).
      destruct (Hno a.1). split; [done|]. split; [done|].
      unfold prev_after in Hp. destruct (last u) as [y|] eqn:Hl; [|done].
      apply last_Some in Hl as [u0 ->]. simpl in Hp. injection Hp as ->.
      exists u0, v'. rewrite Hv. by rewrite <- !(assoc_L (++)).
Qed.

Lemma class_name_no_match p s :
  p <> Some "["%char -> matches class_name_re (Cursor p s []) = [].
Proof.
  intros Hp. destruct (matches class_name_re _) as [|a l] eqn:Hm; [done|].
  assert (a ∈ a :: l) as Hin by left. rewrite <- Hm in Hin.
  by apply class_name_matches_inv in Hin as [? _].
Qed.

(** At a block the first thing the pattern finds is the whole block. *)
Lemma class_name_matches_head block v :
  block <> [] -> Forall (fun x => no_bracket x = true) block ->
  exists a l,
    matches class_name_re (Cursor (Some "["%char) (block ++ chars "]" ++ v) [])
    = a :: l
    /\ a.1 = block.
Proof.
  intros Hne Hall.
  destruct (matches class_name_re _) as [|a l] eqn:Hm;
    [by destruct (class_name_matches_intro block v)|].
  exists a, l. split; [done|].
  assert (a ∈ a :: l) as Hin by left. rewrite <- Hm in Hin.
  apply class_name_matches_inv in Hin as (_ & _ & Hall' & v' & Heq).
  symmetry in Heq. by apply block_unique in Heq as [? _].
Qed.

Lemma no_bracket_not_open x : no_bracket x = true -> x <> "["%char.
Proof. by intros Hx ->. Qed.

Lemma prev_after_not_open p u :
  Forall (fun x => x <> "["%char) u -> p <> Some "["%char \/ u <> [] ->
  prev_after p u <> Some "["%char.
Proof.
  intros Hall Hor. unfold prev_after.
  destruct (last u) as [x|] eqn:Hl; simpl.
  - apply last_Some in Hl as [u' ->].
    apply Forall_app in Hall as [_ [Hx _]%Forall_cons]. congruence.
  - apply last_None in Hl as ->. by destruct Hor.
Qed.

Lemma app_snoc_prefix {A} (pre u1 u2 : list A) x y :
  pre ++ [y] = u1 ++ x :: u2 -> exists w, pre = u1 ++ w.
Proof.
  revert pre. induction u1 as [|z u1 IH]; intros pre Heq; [by exists pre|].
  destruct pre as [|z' pre]; simpl in Heq.
  - injection Heq as _ Heq. by destruct u1.
  - injection Heq as -> Heq. destruct (IH _ Heq) as [w ->]. by exists w.
Qed.

Lemma omap_gaps (u : str) :
  omap (fun pc => match pc with Hit t => Some t | Gap _ => None end)
       (Gap <$> u) = [].
Proof. by induction u. Qed.

(** A title with one bracketed block and no other bracket. *)
Lemma findall_single pre block post :
  Forall (fun x => no_bracket x = true) pre ->
  block <> [] -> Forall (fun x => no_bracket x = true) block ->
  Forall (fun x => no_bracket x = true) post ->
  findall class_name_re (pre ++ chars "[" ++ block ++ chars "]" ++ post)
  = [block].
Proof.
  intros Hpre Hne Hblock Hpost.
  pose proof (Forall_impl _ _ _ Hpre no_bracket_not_open) as Hpre'.
  pose proof (Forall_impl _ _ _ Hblock no_bracket_not_open) as Hblock'.
  pose proof (Forall_impl _ _ _ Hpost no_bracket_not_open) as Hpost'.
  unfold findall. rewrite (assoc_L (++) pre), scan_gaps.
  2:{ intros u1 x u2 [w ->]%app_snoc_prefix.
      apply class_name_no_match, prev_after_not_open; [|by left].
      by apply Forall_app in Hpre' as [? _]. }
  rewrite prev_after_app.
  change (prev_after (prev_after None pre) (chars "[")) with (Some "["%char).
  destruct (class_name_matches_head block post Hne Hblock)
    as (a & l & Hm & Ha).
  rewrite (scan_hit _ _ _ _ _ _ Hm Ha Hne), scan_all_gaps.
  2:{ intros u v Huv. apply class_name_no_match.
      rewrite <- prev_after_app. apply prev_after_not_open.
      - apply Forall_app. split; [done|].
        assert (Forall (fun x => x <> "["%char) (chars "]" ++ post)) as Hall
          by (by constructor).
        rewrite Huv in Hall. by apply Forall_app in Hall as [? _].
      - right. by destruct block. }
  rewrite omap_app, omap_gaps. cbn [omap list_omap app].
  change (list_omap ?f ?l) with (omap f l). by rewrite omap_gaps.
Qed.

End blocks.



(** ** Orders and sorting *)

Section orders.
Import Py Re CanvasCalendarParser.

Lemma ltb_asym {A} (ltb : A -> A -> bool) `{!StrictTotal ltb} x y :
  ltb x y = true -> ltb y x = false.
Proof.
  intros Hxy. destruct (ltb y x) eqn:Hyx; [|done].
  pose proof (ltb_trans x y x Hxy Hyx) as H. by rewrite ltb_irrefl in H.
Qed.

#[global] Instance ascending_total {A} (ltb : A -> A -> bool)
  `{!StrictTotal ltb} : Total (ascending ltb).
Proof.
  intros x y. unfold ascending.
  destruct (ltb_total x y) as [H|[->|H]].
  - left. by apply ltb_asym.
  - left. apply ltb_irrefl.
  - right. by apply ltb_asym.
Qed.

#[global] Instance ascending_trans {A} (ltb : A -> A -> bool)
  `{!StrictTotal ltb} : Transitive (ascending ltb).
Proof.
  intros x y z. unfold ascending. intros Hyx Hzy.
  destruct (ltb z x) eqn:Hzx; [|done].
  destruct (ltb_total x y) as [H|[->|H]]; [|congruence..].
  by rewrite <- Hzy, (ltb_trans z x y Hzx H).
Qed.

#[global] Instance ascending_antisym {A} (ltb : A -> A -> bool)
  `{!StrictTotal ltb} : AntiSymm (=) (ascending ltb).
Proof.
  intros x y. unfold ascending. intros Hyx Hxy.
  destruct (ltb_total x y) as [H|[->|H]]; congruence.
Qed.

#[global] Instance nat_ltb_strict : StrictTotal Nat.ltb.
Proof.
  split.
  - intros x. apply Nat.ltb_irrefl.
  - intros x y z ?%Nat.ltb_lt ?%Nat.ltb_lt. apply Nat.ltb_lt. lia.
  - intros x y. rewrite !Nat.ltb_lt. lia.
Qed.

Lemma code_inj a b : code a = code b -> a = b.
Proof.
  unfold code. intros H.
  by rewrite <- (ascii_nat_embedding a), <- (ascii_nat_embedding b), H.
Qed.

#[global] Instance char_ltb_strict : StrictTotal char_ltb.
Proof.
  unfold char_ltb. split.
  - intros x. apply Nat.ltb_irrefl.
  - intros x y z ?%Nat.ltb_lt ?%Nat.ltb_lt. apply Nat.ltb_lt. lia.
  - intros x y. rewrite !Nat.ltb_lt.
    destruct (decide (code x = code y)) as [?%code_inj|]; [by right; left|].
    lia.
Qed.

#[global] Instance lex_ltb_strict {A} `{EqDecision A} (ltb : A -> A -> bool)
  `{!StrictTotal ltb} : StrictTotal (lex_ltb ltb).
Proof.
  split.
  - intros l. induction l as [|x l IH]; [done|].
    simpl. by rewrite bool_decide_eq_true_2.
  - intros l1. induction l1 as [|x l1 IH]; intros [|y l2] [|z l3]; simpl;
      try done.
    repeat case_bool_decide; subst; try done.
    + apply IH.
    + intros H1 H2. by rewrite (ltb_asym ltb _ _ H1) in H2.
    + apply ltb_trans.
  - intros l1. induction l1 as [|x l1 IH]; intros [|y l2]; simpl; auto.
    repeat case_bool_decide; subst; try done.
    + destruct (IH l2) as [?|[->|?]]; auto.
    + destruct (ltb_total x y) as [?|[->|?]]; auto.
Qed.

#[global] Instance date_ltb_strict : StrictTotal date_ltb.
Proof.
  unfold date_ltb. split.
  - intros x. apply (ltb_irrefl (ltb := lex_ltb Nat.ltb)).
  - intros x y z. apply (ltb_trans (ltb := lex_ltb Nat.ltb)).
  - intros [y1 m1 d1] [y2 m2 d2]. simpl.
    destruct (ltb_total (ltb := lex_ltb Nat.ltb) [y1; m1; d1] [y2; m2; d2])
      as [?|[[= -> -> ->]|?]]; auto.
Qed.

#[global] Instance item_ltb_strict : StrictTotal item_ltb.
Proof.
  unfold item_ltb. split.
  - intros [d l]. simpl. rewrite bool_decide_eq_true_2 by done.
    apply (ltb_irrefl (ltb := lex_ltb str_ltb)).
  - intros [d1 l1] [d2 l2] [d3 l3]. simpl.
    repeat case_bool_decide; subst; try done.
    + apply (ltb_trans (ltb := lex_ltb str_ltb)).
    + intros H1 H2. by rewrite (ltb_asym _ _ _ H1) in H2.
    + apply (ltb_trans (ltb := date_ltb)).
  - intros [d1 l1] [d2 l2]. simpl.
    repeat case_bool_decide; subst; try done.
    + destruct (ltb_total (ltb := lex_ltb str_ltb) l1 l2) as [?|[->|?]]; auto.
    + destruct (ltb_total (ltb := date_ltb) d1 d2) as [?|[->|?]]; auto.
Qed.

(** [sorted] returns its argument rearranged in ascending order. *)
Lemma sorted_Sorted {A} (ltb : A -> A -> bool) `{!StrictTotal ltb} l :
  StronglySorted (ascending ltb) (sorted ltb l).
Proof. apply StronglySorted_merge_sort; apply _. Qed.

Lemma sorted_Permutation {A} (ltb : A -> A -> bool) l : sorted ltb l ≡ₚ l.
Proof. apply merge_sort_Permutation. Qed.

(** No other arrangement is ascending: any sorting algorithm returns what
    [sorted] returns. *)
Lemma sorted_unique {A} (ltb : A -> A -> bool) `{!StrictTotal ltb} l l' :
  l' ≡ₚ l -> Sorted (ascending ltb) l' -> l' = sorted ltb l.
Proof.
  intros Hp Hs. apply (Sorted_unique (ascending ltb)); [done| |].
  - apply Sorted_merge_sort. apply _.
  - by rewrite sorted_Permutation.
Qed.

End orders.

(** ** Reading and grouping the calendar *)

Section calendar.
Import Py Re CanvasCalendarParser.

Lemma startswith_spec p s : startswith p s = true <-> exists v, s = p ++ v.
Proof.
  revert s. induction p as [|a p IH]; intros s; simpl.
  - split; [by exists s|done].
  - destruct s as [|c s]; simpl.
    + split; [done|]. by intros [v ?].
    + rewrite andb_true_iff, is_char_true, IH. split.
      * intros [-> [v ->]]. by exists v.
      * intros [v [= -> ->]]. split; [done|]. by exists v.
Qed.

Lemma contains_spec sub s : contains sub s = true <-> substring sub s.
Proof.
  unfold substring. induction s as [|c s IH]; simpl.
  - rewrite orb_false_r, startswith_spec. split.
    + intros [v ->]. by exists [], v.
    + intros (u & v & Heq). symmetry in Heq.
      apply app_eq_nil in Heq as [-> Heq]. by exists v.
  - rewrite orb_true_iff, startswith_spec, IH. split.
    + intros [[v ->]|(u & v & ->)]; [by exists [], v|by exists (c :: u), v].
    + intros ([|x u] & v & Heq); simpl in Heq.
      * left. by exists v.
      * injection Heq as -> ->. right. by exists u, v.
Qed.

Lemma kept_spec event :
  kept event = true
  <-> ~ substring (chars "PAL") (title event)
      /\ ~ substring (chars "Training") (title event).
Proof.
  unfold kept. rewrite andb_true_iff, !negb_true_iff.
  rewrite <- !contains_spec, !not_true_iff_false. done.
Qed.

Lemma to_skip_kept event :
  any_in to_skip (Some (title event)) = Ok (negb (kept event)).
Proof.
  unfold kept, to_skip. simpl.
  by destruct (contains _ _), (contains _ _).
Qed.

Lemma label_of_ok event_name :
  _format_event event_name = Ok (label_of event_name).
Proof.
  unfold label_of. by destruct (_format_event_total event_name) as [l ->].
Qed.

Lemma labels_on_cons day event events :
  labels_on day (event :: events)
  = (if kept event && bool_decide (dt_date (start event) = day)
     then [label_of (title event)] else [])
    ++ labels_on day events.
Proof. unfold labels_on. simpl. by destruct (_ && _). Qed.

(** One turn of the loop on an event that has a start and a title. *)
Lemma group_events_cons event events acc :
  group_events (ics_event event :: events) acc
  = if kept event
    then group_events events
           (<[dt_date (start event) :=
                default [] (acc !! dt_date (start event))
                ++ [label_of (title event)]]> acc)
    else group_events events acc.
Proof.
  cbn [group_events begin_date ics_event begin name mbind result_bind].
  rewrite to_skip_kept. destruct (kept event); cbn [negb]; [|done].
  by rewrite label_of_ok.
Qed.

(** On events that have a start and a title the loop never fails; under
    each day it leaves what was there already followed by the labels of the
    kept events of that day. *)
Lemma group_events_spec events acc :
  exists events_by_day,
    group_events (ics_event <$> events) acc = Ok events_by_day
    /\ forall day,
         events_by_day !! day
         = match labels_on day events with
           | [] => acc !! day
           | ls => Some (default [] (acc !! day) ++ ls)
           end.
Proof.
  revert acc. induction events as [|event events IH]; intros acc.
  - by exists acc.
  - rewrite fmap_cons, group_events_cons.
    destruct (kept event) eqn:Hk.
    + destruct (IH (<[dt_date (start event) :=
                        default [] (acc !! dt_date (start event))
                        ++ [label_of (title event)]]> acc))
        as (d & -> & Hd).
      exists d. split; [done|]. intros day. rewrite Hd, labels_on_cons, Hk.
      simpl. case_bool_decide as Hday.
      * subst day. rewrite lookup_insert_eq. simpl.
        destruct (labels_on _ events); [done|].
        by rewrite <- (assoc_L (++)).
      * by rewrite lookup_insert_ne.
    + destruct (IH acc) as (d & -> & Hd). exists d. split; [done|].
      intros day. by rewrite Hd, labels_on_cons, Hk.
Qed.

(** The loop fails on an event without start or without title, and on
    nothing else. *)
Lemma group_events_raises events acc e :
  group_events events acc = Raise e ->
  exists event,
    event ∈ events
    /\ ((begin event = None /\ exn_class e = AttributeError)
        \/ (name event = None /\ exn_class e = TypeError)).
Proof.
  revert acc. induction events as [|event events IH]; intros acc; [done|].
  cbn [group_events]. unfold begin_date.
  destruct (begin event) as [b|] eqn:Hb; cbn [mbind result_bind].
  - destruct (name event) as [details|] eqn:Hn.
    + destruct (any_in to_skip (Some details)) as [[]|e'] eqn:Hany;
        cbn [mbind result_bind].
      * intros (ev & Hin & Hev)%IH. exists ev. split; [by right|done].
      * rewrite label_of_ok. cbn [mbind result_bind].
        intros (ev & Hin & Hev)%IH. exists ev. split; [by right|done].
      * unfold to_skip in Hany. simpl in Hany.
        destruct (contains _ _); [done|]. by destruct (contains _ _).
    + intros [= <-]. exists event. split; [by left|]. by right.
  - intros [= <-]. exists event. split; [by left|]. by left.
Qed.

(** An event without start or without title makes the loop fail, wherever
    it stands in the calendar. *)
Lemma group_events_incomplete events acc event :
  event ∈ events -> begin event = None \/ name event = None ->
  exists e,
    group_events events acc = Raise e
    /\ (exn_class e = AttributeError \/ exn_class e = TypeError).
Proof.
  intros Hin Hnone. revert acc.
  induction events as [|event0 events IH]; intros acc;
    [by apply elem_of_nil in Hin|].
  cbn [group_events]. unfold begin_date.
  destruct (begin event0) as [b|] eqn:Hb; cbn [mbind result_bind];
    [|eexists; split; [done|by left]].
  destruct (name event0) as [details|] eqn:Hn;
    [|eexists; split; [done|by right]].
  assert (event ∈ events) as Hin'.
  { apply elem_of_cons in Hin as [->|?]; [|done].
    destruct Hnone; congruence. }
  destruct (any_in to_skip (Some details)) as [[]|e'] eqn:Hany;
    cbn [mbind result_bind].
  - by apply IH.
  - rewrite label_of_ok. cbn [mbind result_bind]. by apply IH.
  - unfold to_skip in Hany. simpl in Hany.
    destruct (contains _ _); [done|]. by destruct (contains _ _).
Qed.

Lemma parse_calendar_ok w file_path text calendar :
  Path_exists w file_path = Ok true ->
  read_text w file_path = Ok text ->
  Calendar w text = Ok (ics_event <$> calendar) ->
  exists events_by_day,
    parse_calendar w file_path = Ok events_by_day
    /\ forall day,
         events_by_day !! day
         = match labels_on day calendar with
           | [] => None
           | ls => Some ls
           end.
Proof.
  intros He Hr Hc. unfold parse_calendar. rewrite He, Hr. simpl.
  rewrite Hc. destruct (group_events_spec calendar ∅) as (d & -> & Hd).
  exists d. split; [done|]. intros day. rewrite Hd, lookup_empty.
  by destruct (labels_on day calendar).
Qed.

(** Where an exception of [parse_calendar] comes from: the existence check,
    the missing file, the loading of the calendar, or the loop. *)
Lemma parse_calendar_raises w file_path e :
  parse_calendar w file_path = Raise e ->
  Path_exists w file_path = Raise e
  \/ (Path_exists w file_path = Ok false
      /\ e = Exn FileNotFoundError
               (chars "Could not find ICS file: " ++ Path_str w file_path))
  \/ (Path_exists w file_path = Ok true
      /\ exists e',
           (text ← read_text w file_path; Calendar w text) = Raise e'
           /\ e = Exn ValueError
                    (chars "Failed to parse ICS file: " ++ exn_str e'))
  \/ (Path_exists w file_path = Ok true
      /\ exists calendar,
           (text ← read_text w file_path; Calendar w text) = Ok calendar
           /\ group_events calendar ∅ = Raise e).
Proof.
  unfold parse_calendar.
  destruct (Path_exists w file_path) as [[]|e0]; cbn [mbind result_bind negb].
  - destruct (_ ≫= _) as [calendar|e'] eqn:Hload.
    + intros Hg. do 3 right. split; [done|]. by exists calendar.
    + intros [= <-]. do 2 right. left. split; [done|]. by exists e'.
  - intros [= <-]. right. by left.
  - intros [= <-]. by left.
Qed.

End calendar.


(** ** Printing *)

Section report.
Import Py Re CanvasCalendarParser.

Lemma flat_map_bind {A B} (f : A -> list B) l : flat_map f l = l ≫= f.
Proof. induction l as [|x l IH]; [done|]. simpl. by rewrite IH. Qed.

(** What [main] prints for the days, line by line. *)
Lemma render_lines w bs : render w bs = lines (report_lines w bs).
Proof.
  unfold render, report_lines, lines. rewrite flat_map_bind.
  induction bs as [|b bs IH]; [done|].
  rewrite !bind_cons, bind_app, IH. f_equal.
Qed.

Lemma main_unfold w argv :
  main w argv
  = match parse_calendar w (path_argument argv) with
    | Ok events => Outcome (render w (blocks events)) Finished
    | Raise e =>
        if caught e
        then
          Outcome
            (print (chars "Error: " ++ exn_str e)
             ++ (if bool_decide
                      (exn_str e
                       = chars "Could not find ICS file: canvas_export.ics")
                 then print hint_line else []))
            (SysExit 1)
        else Outcome [] (Uncaught e)
    end.
Proof. reflexivity. Qed.

(** Items in ascending order with distinct days have strictly ascending
    days. *)
Lemma items_dates_sorted (items : list (date * list str)) :
  StronglySorted (ascending item_ltb) items -> NoDup items.*1 ->
  StronglySorted date_lt items.*1.
Proof.
  induction 1 as [|x l Hs IH Hx]; intros Hnd; simpl; [constructor|].
  apply NoDup_cons in Hnd as [Hnin Hnd]. constructor; [by apply IH|].
  apply Forall_fmap, Forall_forall. intros y Hy. simpl.
  rewrite Forall_forall in Hx. specialize (Hx y Hy).
  unfold ascending, item_ltb in Hx. case_bool_decide as Heq.
  - destruct Hnin. rewrite <- Heq. apply list_elem_of_fmap. by exists y.
  - unfold date_lt.
    destruct (ltb_total (ltb := date_ltb) x.1 y.1) as [?|[?|?]];
      [done|congruence..].
Qed.

Lemma blocks_dates d : (blocks d).*1 = (sorted item_ltb (map_to_list d)).*1.
Proof.
  unfold blocks. rewrite <- list_fmap_compose. by apply list_fmap_ext.
Qed.

(** The days are printed in strictly ascending order, each once. *)
Lemma blocks_dates_sorted d : StronglySorted date_lt (blocks d).*1.
Proof.
  rewrite blocks_dates. apply items_dates_sorted.
  - apply sorted_Sorted. apply _.
  - rewrite sorted_Permutation. apply NoDup_fst_map_to_list.
Qed.

(** The printed blocks are the days of the mapping with their labels
    sorted. *)
Lemma blocks_elem d day labels :
  (day, labels) ∈ blocks d
  <-> exists ls, d !! day = Some ls /\ labels = sorted str_ltb ls.
Proof.
  unfold blocks. rewrite list_elem_of_fmap. split.
  - intros ([day' ls] & [= -> ->] & Hin). exists ls. split; [|done].
    rewrite sorted_Permutation in Hin. by apply elem_of_map_to_list in Hin.
  - intros (ls & Hd & ->). exists (day, ls). split; [done|].
    rewrite sorted_Permutation. by apply elem_of_map_to_list.
Qed.

End report.

(** ** The first alternative *)

Section first_alternative.
Import Py Re CanvasCalendarParser.

Lemma head_bind {A B} (f : A -> list B) l x y :
  head l = Some x -> head (f x) = Some y -> head (l ≫= f) = Some y.
Proof.
  destruct l as [|x' l]; [done|]. intros [= ->]. simpl.
  by destruct (f x).
Qed.

Lemma head_fmap {A B} (f : A -> B) l : head (f <$> l) = f <$> head l.
Proof. by destruct l. Qed.

Lemma head_app_Some {A} (l k : list A) y :
  head l = Some y -> head (l ++ k) = Some y.
Proof. by destruct l. Qed.

Lemma rep_S step lo hi c :
  rep step lo (S hi) c
  = (step c ≫= then_ (rep step (pred lo) hi))
    ++ (if lo is O then [([], c)] else []).
Proof. reflexivity. Qed.

Lemma matches_Chr_cons cls p x s cs :
  matches (Chr cls) (Cursor p (x :: s) cs)
  = if cls x then [([x], Cursor (Some x) s cs)] else [].
Proof. reflexivity. Qed.

(** A greedy class repetition first takes the longest run it may. *)
Lemma rep_Chr_head cls lo hi p t s cs :
  Forall (fun x => cls x = true) t -> lo <= length t <= hi ->
  length t = hi \/ head (cls <$> s) <> Some true ->
  head (rep (matches (Chr cls)) lo hi (Cursor p (t ++ s) cs))
  = Some (t, Cursor (prev_after p t) s cs).
Proof.
  revert lo hi p. induction t as [|x t IH]; intros lo hi p Hall Hlen Hstop.
  - simpl in Hlen. assert (lo = 0) as -> by lia.
    destruct hi as [|hi]; [done|]. rewrite rep_S.
    destruct Hstop as [?|Hstop]; [done|].
    destruct s as [|y s]; [done|]. rewrite app_nil_l, matches_Chr_cons.
    simpl in Hstop. by destruct (cls y).
  - destruct hi as [|hi]; simpl in Hlen; [lia|].
    apply Forall_cons in Hall as [Hx Hall].
    rewrite rep_S, <- app_comm_cons, matches_Chr_cons, Hx.
    assert (head (rep (matches (Chr cls)) (pred lo) hi
                      (Cursor (Some x) (t ++ s) cs))
            = Some (t, Cursor (prev_after (Some x) t) s cs)) as Hrec.
    { apply IH; [done|lia|].
      destruct Hstop as [?|?]; [left; simpl in *; lia|by right]. }
    cbn [mbind list_bind]. unfold then_. cbn [fst snd].
    destruct (rep _ _ _ _) as [|a l]; [done|].
    injection Hrec as ->. by rewrite prev_after_cons.
Qed.

Lemma head_matches_Chr cls p x s cs :
  cls x = true ->
  head (matches (Chr cls) (Cursor p (x :: s) cs))
  = Some ([x], Cursor (Some x) s cs).
Proof. simpl. by intros ->. Qed.

Lemma head_matches_Cat r1 r2 c a1 a2 :
  head (matches r1 c) = Some a1 -> head (matches r2 a1.2) = Some a2 ->
  head (matches (Cat r1 r2) c) = Some (extend a1.1 a2).
Proof.
  intros H1 H2. simpl. apply (head_bind _ _ a1); [done|].
  unfold then_. destruct (matches r2 a1.2); [done|].
  simpl in *. by injection H2 as ->.
Qed.

End first_alternative.

(** ** Course codes *)

Section course_codes.
Import Py Re CanvasCalendarParser.

(** Facts about the character classes, checked on all 256 characters. *)
Ltac all_chars c :=
  destruct c as [[] [] [] [] [] [] [] []]; vm_compute; intuition congruence.

Lemma upper_facts c :
  upper c = true ->
  no_bracket c = true /\ sep c = false /\ is_char " " c = false
  /\ sep_colon c = false.
Proof. all_chars c. Qed.

Lemma digit_facts c :
  digit c = true ->
  no_bracket c = true /\ sep c = false /\ is_char " " c = false
  /\ is_char "-" c = false /\ sep_colon c = false.
Proof. all_chars c. Qed.

Lemma sep_facts c :
  sep c = true ->
  no_bracket c = true /\ upper c = false /\ digit c = false
  /\ (if is_char " " c then "-"%char else c) = "-"%char.
Proof. all_chars c. Qed.

Lemma upper_digit_facts c :
  upper_digit c = true -> no_bracket c = true /\ sep_colon c = false.
Proof. all_chars c. Qed.

Lemma search_from_head r p s a :
  head (matches r (Cursor p s [])) = Some a ->
  search_from r p s = Some (Match [] a.1 (rest a.2) (caps a.2)).
Proof.
  intros Hh. destruct s; simpl;
    destruct (matches r _) as [|a' l]; try done; by injection Hh as ->.
Qed.

(** A block that begins with a subject, a separator and a four-digit number,
    with no section suffix the pattern accepts after it: the search stops at
    the start of the block and captures the subject and the number. *)
Lemma class_slug_at_start L s1 D tail :
  length L = 3 \/ length L = 4 ->
  Forall (fun x => upper x = true) L -> sep s1 = true ->
  length D = 4 -> Forall (fun x => digit x = true) D ->
  (forall p cs, matches suffix_re (Cursor p tail cs) = []) ->
  search class_slug_re (L ++ [s1] ++ D ++ tail)
  = Some (Match [] (L ++ [s1] ++ D) tail [(1, L ++ [s1] ++ D)]).
Proof.
  intros HL Hup Hs1 HD Hdig Htail.
  set (c1 := Cursor (prev_after None L) ([s1] ++ D ++ tail) []).
  set (c2 := Cursor (Some s1) (D ++ tail) []).
  set (c3 := Cursor (prev_after (Some s1) D) tail []).
  assert (head (matches (between 3 4 (Chr upper))
                        (Cursor None (L ++ [s1] ++ D ++ tail) []))
          = Some (L, c1)) as H1.
  { apply (rep_Chr_head upper 3 4); [done|lia|].
    destruct HL as [?|?]; [right|by left].
    simpl. destruct (sep_facts _ Hs1) as (_ & -> & _). done. }
  assert (head (matches (Chr sep) c1) = Some ([s1], c2)) as H2.
  { by apply head_matches_Chr. }
  assert (head (matches (times 4 (Chr digit)) c2) = Some (D, c3)) as H3.
  { apply (rep_Chr_head digit 4 4); [done|lia|by left]. }
  assert (head (matches (between 0 1 suffix_re) c3) = Some ([], c3)) as H4.
  { change (matches (between 0 1 suffix_re) c3)
      with (rep (matches suffix_re) 0 1 c3).
    rewrite rep_S. unfold c3 at 1. by rewrite Htail. }
  pose proof (head_matches_Cat _ _ _ _ _ H1 H2) as H12.
  pose proof (head_matches_Cat _ _ _ _ _ H12 H3) as H123.
  pose proof (head_matches_Cat _ _ _ _ _ H123 H4) as Hall.
  unfold search. erewrite search_from_head.
  2:{ change (matches class_slug_re ?c)
        with ((fun a : alt =>
                 (a.1, Cursor (prev a.2) (rest a.2) ((1, a.1) :: caps a.2)))
                <$> matches (between 3 4 (Chr upper) ⋅ Chr sep
                             ⋅ times 4 (Chr digit)
                             ⋅ between 0 1 suffix_re)%re c).
      rewrite head_fmap, Hall. reflexivity. }
  simpl. rewrite app_nil_r, <- !(assoc_L (++)). done.
Qed.

(** A run of section characters that ends at a comma is not followed by a
    separator or a colon, wherever it is cut. *)
Lemma run_then_comma (S1 t : str) x rest s' :
  Forall (fun x => upper_digit x = true) S1 ->
  Forall (fun x => upper_digit x = true) t ->
  sep_colon x = true ->
  S1 ++ chars "," ++ rest = t ++ x :: s' -> False.
Proof.
  revert t. induction S1 as [|y S1 IH]; intros [|z t] HS Ht Hx Heq;
    simpl in Heq.
  - by injection Heq as <- _.
  - injection Heq as <- _. by apply Forall_cons in Ht as [? _].
  - injection Heq as <- _. apply Forall_cons in HS as [Hy _].
    apply upper_digit_facts in Hy as [_ Hy]. congruence.
  - injection Heq as <- Heq. apply Forall_cons in HS as [_ HS].
    apply Forall_cons in Ht as [_ Ht]. by apply (IH t).
Qed.

(** So the section of a piece that a comma follows is never captured. *)
Lemma no_suffix_before_comma s2 S1 rest p cs :
  Forall (fun x => upper_digit x = true) S1 ->
  matches suffix_re (Cursor p ([s2] ++ S1 ++ chars "," ++ rest) cs) = [].
Proof.
  intros HS. destruct (matches suffix_re _) as [|a l] eqn:Hm; [done|].
  assert (a ∈ a :: l) as Hin by left. rewrite <- Hm in Hin.
  unfold suffix_re in Hin.
  apply matches_Cat_inv in Hin as (a12 & a3 & Hin & Ha3 & ->).
  apply matches_Cat_inv in Hin as (a1 & a2 & Ha1 & Ha2 & ->).
  apply matches_Chr_inv in Ha1 as (x & s' & [= <- <-] & _ & ->).
  pose proof (matches_consumes _ _ _ Ha2) as Hrest.
  apply rep_Chr_inv in Ha2 as (Hall & _ & _).
  apply matches_Ahead_inv in Ha3 as [_ (y & s'' & Hy & Hsc)].
  simpl in Hrest, Hy. rewrite Hy in Hrest.
  destruct (run_then_comma _ _ _ _ _ HS Hall Hsc Hrest).
Qed.

(** [str.replace], equation by equation. *)
Lemma startswith_app p s : startswith p (p ++ s) = true.
Proof. apply startswith_spec. by exists s. Qed.

Lemma replace_go_skip old new t s :
  replace_go old new (length t) (t ++ s) = replace_go old new 0 s.
Proof. induction t as [|x t IH]; [done|]. simpl. apply IH. Qed.

Lemma replace_go_hit old new s :
  old <> [] -> replace_go old new 0 (old ++ s) = new ++ replace_go old new 0 s.
Proof.
  destruct old as [|c o]; [done|]. intros _.
  rewrite <- app_comm_cons. cbn [replace_go].
  replace (startswith (c :: o) (c :: o ++ s)) with true
    by (symmetry; apply (startswith_app (c :: o))).
  cbn [length]. by rewrite Nat.sub_succ, Nat.sub_0_r, replace_go_skip.
Qed.

Lemma replace_go_other c o new u s :
  Forall (fun x => x <> c) u ->
  replace_go (c :: o) new 0 (u ++ s) = u ++ replace_go (c :: o) new 0 s.
Proof.
  induction 1 as [|x u Hx _ IH]; [done|].
  rewrite <- !app_comm_cons. cbn [replace_go startswith].
  assert (is_char c x = false) as ->.
  { apply not_true_iff_false. rewrite is_char_true. congruence. }
  cbn [andb]. by rewrite IH.
Qed.

(** Taking the one bracketed block out of a title leaves what stands around
    it. *)
Lemma replace_block pre block post :
  Forall (fun x => no_bracket x = true) pre ->
  Forall (fun x => no_bracket x = true) post ->
  replace (chars "[" ++ block ++ chars "]") []
          (pre ++ chars "[" ++ block ++ chars "]" ++ post)
  = pre ++ post.
Proof.
  intros Hpre Hpost.
  pose proof (Forall_impl _ _ _ Hpre no_bracket_not_open) as Hpre'.
  pose proof (Forall_impl _ _ _ Hpost no_bracket_not_open) as Hpost'.
  set (old := "["%char :: block ++ chars "]").
  change (replace (chars "[" ++ block ++ chars "]") [] ?s)
    with (replace_go old [] 0 s).
  replace (chars "[" ++ block ++ chars "]" ++ post) with (old ++ post)
    by (unfold old; simpl; by rewrite <- (assoc_L (++))).
  unfold old at 1. rewrite replace_go_other by done. fold old.
  rewrite replace_go_hit by done.
  rewrite <- (app_nil_r post) at 1. unfold old.
  rewrite replace_go_other by done. by rewrite app_nil_r.
Qed.

(** Replacing one character by another goes character by character. *)
Lemma replace_single a b s :
  replace [a] [b] s = (fun c => if is_char a c then b else c) <$> s.
Proof.
  unfold replace. induction s as [|c s IH]; [done|].
  cbn [replace_go startswith length]. rewrite andb_true_r.
  rewrite fmap_cons. change (1 - 1) with 0.
  destruct (is_char a c); by rewrite IH.
Qed.

Lemma fmap_unchanged {A} (f : A -> A) l :
  Forall (fun x => f x = x) l -> f <$> l = l.
Proof. induction 1 as [|x l Hx _ IH]; [done|]. by rewrite fmap_cons, Hx, IH. Qed.

(** A course code with its separator turned into a hyphen. *)
Lemma hyphenate_code L s1 D :
  Forall (fun x => upper x = true) L -> sep s1 = true ->
  Forall (fun x => digit x = true) D ->
  replace (chars " ") (chars "-") (L ++ [s1] ++ D) = L ++ chars "-" ++ D.
Proof.
  intros HL Hs HD.
  change (replace (chars " ") (chars "-") ?s)
    with (replace [" "%char] ["-"%char] s).
  rewrite replace_single, !fmap_app. f_equal; [|f_equal].
  - apply fmap_unchanged. eapply Forall_impl; [done|]. simpl.
    intros x (_ & _ & -> & _)%upper_facts. done.
  - simpl. f_equal. by apply sep_facts in Hs as (_ & _ & _ & ->).
  - apply fmap_unchanged. eapply Forall_impl; [done|]. simpl.
    intros x (_ & _ & -> & _)%digit_facts. done.
Qed.

(** When the subject has three letters, subject and number are the first
    eight characters of the piece. *)
Lemma base_code_of_three L D S1 :
  length L = 3 -> length D = 4 -> Forall (fun x => digit x = true) D ->
  rstrip (chars "-") (take 8 (L ++ chars "-" ++ D ++ chars "-" ++ S1))
  = L ++ chars "-" ++ D.
Proof.
  intros HL HD Hdig.
  destruct L as [|l1 [|l2 [|l3 [|]]]]; try done.
  destruct D as [|d1 [|d2 [|d3 [|d4 [|]]]]]; try done.
  assert (is_char "-" d4 = false) as Hd4.
  { rewrite !Forall_cons in Hdig. destruct Hdig as (_ & _ & _ & Hd & _).
    by apply digit_facts in Hd as (_ & _ & _ & -> & _). }
  unfold rstrip, rstrip_by. cbn. by rewrite Hd4.
Qed.

(** A block of several pieces: the label is made from the first piece alone,
    and holds its subject and number. *)
Lemma format_multi_section pre post L s1 D s2 S1 p2 :
  length L = 3 \/ length L = 4 ->
  Forall (fun x => upper x = true) L -> sep s1 = true ->
  length D = 4 -> Forall (fun x => digit x = true) D ->
  sep s2 = true -> Forall (fun x => upper_digit x = true) S1 ->
  Forall (fun x => no_bracket x = true) p2 ->
  Forall (fun x => no_bracket x = true) pre ->
  Forall (fun x => no_bracket x = true) post ->
  _format_event
    (pre ++ chars "[" ++ (L ++ [s1] ++ D ++ [s2] ++ S1 ++ chars ", " ++ p2)
     ++ chars "]" ++ post)
  = Ok (L ++ chars "-" ++ D ++ chars ": " ++ strip (pre ++ post)).
Proof.
  intros HL Hup Hs1 HD Hdig Hs2 HS1 Hp2 Hpre Hpost.
  set (block := L ++ [s1] ++ D ++ [s2] ++ S1 ++ chars ", " ++ p2).
  assert (Forall (fun x => no_bracket x = true) block) as Hblock.
  { unfold block. rewrite !Forall_app. repeat split.
    - eapply Forall_impl; [done|]. by intros x [? _]%upper_facts.
    - constructor; [|done]. by apply sep_facts in Hs1 as [? _].
    - eapply Forall_impl; [done|]. by intros x [? _]%digit_facts.
    - constructor; [|done]. by apply sep_facts in Hs2 as [? _].
    - eapply Forall_impl; [done|]. by intros x [? _]%upper_digit_facts.
    - by repeat constructor.
    - done. }
  assert (block <> []) as Hne.
  { unfold block. destruct L; [simpl in HL; lia|done]. }
  assert (search class_slug_re block
          = Some (Match [] (L ++ [s1] ++ D)
                        ([s2] ++ S1 ++ chars ", " ++ p2)
                        [(1, L ++ [s1] ++ D)])) as Hsearch.
  { apply class_slug_at_start; try done.
    intros p cs. by apply (no_suffix_before_comma s2 S1 (chars " " ++ p2)). }
  assert (last (findall class_name_re
                  (pre ++ chars "[" ++ block ++ chars "]" ++ post))
          = Some block) as Hlast by (by rewrite findall_single).
  rewrite (_format_event_slug _ _ _ Hlast Hsearch).
  rewrite replace_block by done. cbn [m_text].
  rewrite hyphenate_code by done. by rewrite <- !(assoc_L (++)).
Qed.

End course_codes.

(** ** Cleaning a class name *)

Section cleaning.
Import Py Re CanvasCalendarParser.

Lemma matches_Cat r1 r2 c :
  matches (Cat r1 r2) c = matches r1 c ≫= then_ (matches r2).
Proof. reflexivity. Qed.

(** A literal pattern matches where the text starts with it, in one way. *)
Lemma matches_lit t p s cs :
  matches (lit t) (Cursor p s cs)
  = if startswith t s
    then [(t, Cursor (prev_after p t) (drop (length t) s) cs)]
    else [].
Proof.
  revert p s. induction t as [|c t IH]; intros p s; [done|].
  destruct t as [|c' t].
  - destruct s as [|x s]; [done|]. cbn [lit startswith].
    rewrite matches_Chr_cons, andb_true_r.
    destruct (is_char c x) eqn:Hx; [|done].
    by apply is_char_true in Hx as ->.
  - change (lit (c :: c' :: t))
      with (Cat (Chr (is_char c)) (lit (c' :: t))).
    destruct s as [|x s]; [done|].
    rewrite matches_Cat, matches_Chr_cons.
    change (startswith (c :: c' :: t) (x :: s))
      with (is_char c x && startswith (c' :: t) s).
    destruct (is_char c x) eqn:Hx; [|done].
    apply is_char_true in Hx as ->.
    cbn [mbind list_bind]. unfold then_. cbn [fst snd]. rewrite IH.
    cbn [andb]. destruct (startswith (c' :: t) s); [|done].
    cbn [fmap list_fmap app extend fst snd].
    by rewrite (prev_after_cons p x (c' :: t)).
Qed.

(** [re.sub] of a literal pattern is [str.replace]. *)
Lemma scan_lit old repl p skip s :
  old <> [] ->
  flat_map (fun pc => match pc with Hit _ => repl | Gap c => [c] end)
           (scan (lit old) p skip s)
  = replace_go old repl skip s.
Proof.
  intros Hne. revert p skip. induction s as [|x s IH]; intros p skip.
  - cbn [scan replace_go]. rewrite matches_lit.
    by destruct old.
  - destruct skip as [|k]; cbn [scan replace_go]; [|apply IH].
    rewrite matches_lit. destruct (startswith old (x :: s)).
    + unfold nonempty. cbn [fst]. rewrite bool_decide_eq_false_2 by done.
      cbn [negb flat_map]. by rewrite IH.
    + cbn [flat_map app]. by rewrite IH.
Qed.

Lemma sub_lit old repl s :
  old <> [] -> sub (lit old) repl s = replace old repl s.
Proof.
  intros Hne. unfold sub. rewrite scan_lit by done. by destruct old.
Qed.

(** Where a pattern matches nowhere, [re.sub] changes nothing and
    [re.search] finds nothing. *)
Lemma sub_no_match r repl s :
  (forall u v, s = u ++ v -> matches r (Cursor (prev_after None u) v []) = []) ->
  sub r repl s = s.
Proof.
  intros Hno. unfold sub. rewrite scan_all_gaps by done.
  clear Hno. induction s as [|x s IH]; [done|].
  rewrite fmap_cons. cbn [flat_map app]. by rewrite IH.
Qed.

Lemma search_from_none r p s :
  (forall u v, s = u ++ v -> matches r (Cursor (prev_after p u) v []) = []) ->
  search_from r p s = None.
Proof.
  revert p. induction s as [|x s IH]; intros p Hno.
  - pose proof (Hno [] [] eq_refl) as H0.
    change (prev_after p []) with p in H0. simpl. by rewrite H0.
  - pose proof (Hno [] (x :: s) eq_refl) as H0.
    change (prev_after p []) with p in H0. cbn [search_from]. rewrite H0.
    rewrite IH; [done|]. intros u v ->.
    rewrite <- (prev_after_cons p). by apply (Hno (x :: u) v).
Qed.

(** The first two cleanup patterns and the course-code pattern each need a
    digit. *)
Lemma needs_digit_Cat_l r1 r2 : needs_digit r1 -> needs_digit (Cat r1 r2).
Proof.
  intros H1 c a (a1 & a2 & Ha1 & _ & ->)%matches_Cat_inv.
  destruct (H1 _ _ Ha1) as (x & Hx & Hd). exists x. split; [|done].
  simpl. apply elem_of_app. by left.
Qed.

Lemma needs_digit_Cat_r r1 r2 : needs_digit r2 -> needs_digit (Cat r1 r2).
Proof.
  intros H2 c a (a1 & a2 & _ & Ha2 & ->)%matches_Cat_inv.
  destruct (H2 _ _ Ha2) as (x & Hx & Hd). exists x. split; [|done].
  simpl. apply elem_of_app. by right.
Qed.

Lemma needs_digit_Grp n r : needs_digit r -> needs_digit (Grp n r).
Proof.
  intros Hr c a Hin. simpl in Hin.
  apply list_elem_of_fmap in Hin as (a' & -> & Ha'). simpl.
  by apply (Hr c).
Qed.

Lemma needs_digit_Chr : needs_digit (Chr digit).
Proof.
  intros c a (x & s' & _ & Hx & ->)%matches_Chr_inv.
  exists x. split; [by left|done].
Qed.

Lemma needs_digit_times n : needs_digit (times (S n) (Chr digit)).
Proof.
  intros c a Hin. apply rep_Chr_inv in Hin as (Hall & Hlen & _).
  destruct (a.1) as [|x t]; simpl in Hlen; [lia|].
  apply Forall_cons in Hall as [Hx _]. exists x. split; [by left|done].
Qed.

Lemma class_slug_needs_digit : needs_digit class_slug_re.
Proof.
  apply needs_digit_Grp, needs_digit_Cat_l, needs_digit_Cat_r,
    (needs_digit_times 3).
Qed.

Lemma no_digit_no_match r c :
  needs_digit r -> Forall (fun x => digit x = false) (rest c) ->
  matches r c = [].
Proof.
  intros Hneeds Hnone. destruct (matches r c) as [|a l] eqn:Hm; [done|].
  assert (a ∈ matches r c) as Hin by (rewrite Hm; left).
  destruct (Hneeds c a Hin) as (x & Hx & Hd).
  apply matches_consumes in Hin. rewrite Hin in Hnone.
  apply Forall_app in Hnone as [Hnone _].
  rewrite Forall_forall in Hnone. specialize (Hnone x Hx). congruence.
Qed.

Lemma sub_no_digit r s :
  needs_digit r -> Forall (fun x => digit x = false) s -> sub r [] s = s.
Proof.
  intros Hr Hs. apply sub_no_match. intros u v ->.
  apply no_digit_no_match; [done|]. by apply Forall_app in Hs as [_ ?].
Qed.

Lemma search_no_digit r s :
  needs_digit r -> Forall (fun x => digit x = false) s -> search r s = None.
Proof.
  intros Hr Hs. apply search_from_none. intros u v ->.
  apply no_digit_no_match; [done|]. by apply Forall_app in Hs as [_ ?].
Qed.

Lemma replace_absent old new s :
  old <> [] -> ~ substring old s -> replace old new s = s.
Proof.
  intros Hne Hno. destruct old as [|c o]; [done|]. unfold replace.
  induction s as [|x s IH]; [done|]. cbn [replace_go].
  destruct (startswith (c :: o) (x :: s)) eqn:Hsw.
  - destruct Hno. apply startswith_spec in Hsw as [v ->]. by exists [], v.
  - rewrite IH; [done|]. intros (u & v & ->). apply Hno.
    by exists (x :: u), v.
Qed.

(** A class name without digits is cleaned by deleting ["_Combined"]. *)
Lemma clean_without_digits class_name :
  Forall (fun x => digit x = false) class_name ->
  foldl (fun class_name pattern => sub pattern [] class_name)
        class_name patterns
  = replace (chars "_Combined") [] class_name.
Proof.
  intros Hnd. unfold patterns. cbn [foldl].
  rewrite (sub_no_digit _ class_name); [|..|done].
  2:{ apply needs_digit_Cat_l, needs_digit_Cat_l, needs_digit_Cat_r,
        needs_digit_Chr. }
  rewrite (sub_no_digit _ class_name); [|..|done].
  2:{ apply needs_digit_Cat_l, needs_digit_Cat_r, (needs_digit_times 3). }
  by apply sub_lit.
Qed.

End cleaning.

(** ** The section suffix of a course code *)

Section section_suffix.
Import Py Re CanvasCalendarParser.

Lemma sep_colon_facts c :
  sep_colon c = true -> no_bracket c = true /\ upper_digit c = false.
Proof.
  destruct c as [[] [] [] [] [] [] [] []]; vm_compute; intuition congruence.
Qed.

Lemma upper_digit_no_space c :
  upper_digit c = true -> is_char " " c = false.
Proof.
  destruct c as [[] [] [] [] [] [] [] []]; vm_compute; intuition congruence.
Qed.

(** The search at a block that begins with a course code, whatever the
    optional part finds first after the number. *)
Lemma class_slug_at_start_with L s1 D tail sfx c' :
  length L = 3 \/ length L = 4 ->
  Forall (fun x => upper x = true) L -> sep s1 = true ->
  length D = 4 -> Forall (fun x => digit x = true) D ->
  head (matches (between 0 1 suffix_re)
                (Cursor (prev_after (Some s1) D) tail []))
  = Some (sfx, c') ->
  search class_slug_re (L ++ [s1] ++ D ++ tail)
  = Some (Match [] (L ++ [s1] ++ D ++ sfx) (rest c')
                ((1, L ++ [s1] ++ D ++ sfx) :: caps c')).
Proof.
  intros HL Hup Hs1 HD Hdig H4.
  set (c1 := Cursor (prev_after None L) ([s1] ++ D ++ tail) []).
  set (c2 := Cursor (Some s1) (D ++ tail) []).
  set (c3 := Cursor (prev_after (Some s1) D) tail []).
  assert (head (matches (between 3 4 (Chr upper))
                        (Cursor None (L ++ [s1] ++ D ++ tail) []))
          = Some (L, c1)) as H1.
  { apply (rep_Chr_head upper 3 4); [done|lia|].
    destruct HL as [?|?]; [right|by left].
    simpl. destruct (sep_facts _ Hs1) as (_ & -> & _). done. }
  assert (head (matches (Chr sep) c1) = Some ([s1], c2)) as H2
    by (by apply head_matches_Chr).
  assert (head (matches (times 4 (Chr digit)) c2) = Some (D, c3)) as H3
    by (apply (rep_Chr_head digit 4 4); [done|lia|by left]).
  pose proof (head_matches_Cat _ _ _ _ _ H1 H2) as H12.
  pose proof (head_matches_Cat _ _ _ _ _ H12 H3) as H123.
  pose proof (head_matches_Cat _ _ _ _ _ H123 H4) as Hall.
  unfold search. erewrite search_from_head.
  2:{ change (matches class_slug_re ?c)
        with ((fun a : alt =>
                 (a.1, Cursor (prev a.2) (rest a.2) ((1, a.1) :: caps a.2)))
                <$> matches (between 3 4 (Chr upper) ⋅ Chr sep
                             ⋅ times 4 (Chr digit)
                             ⋅ between 0 1 suffix_re)%re c).
      rewrite head_fmap, Hall. reflexivity. }
  simpl. by rewrite <- !(assoc_L (++)).
Qed.

(** A section of at most three characters that a separator or a colon
    follows is what the optional part takes first. *)
Lemma suffix_taken p s2 S x tail :
  sep s2 = true -> Forall (fun x => upper_digit x = true) S ->
  length S <= 3 -> sep_colon x = true ->
  head (matches (between 0 1 suffix_re)
                (Cursor p ([s2] ++ S ++ [x] ++ tail) []))
  = Some ([s2] ++ S, Cursor (prev_after (Some s2) S) ([x] ++ tail) []).
Proof.
  intros Hs2 HS Hlen Hx.
  set (c1 := Cursor (Some s2) (S ++ [x] ++ tail) []).
  set (c2 := Cursor (prev_after (Some s2) S) ([x] ++ tail) []).
  assert (head (matches (Chr sep) (Cursor p ([s2] ++ S ++ [x] ++ tail) []))
          = Some ([s2], c1)) as H1 by (by apply head_matches_Chr).
  assert (head (matches (between 0 3 (Chr upper_digit)) c1) = Some (S, c2))
    as H2.
  { apply (rep_Chr_head upper_digit 0 3); [done|lia|]. right. simpl.
    by apply sep_colon_facts in Hx as [_ ->]. }
  assert (head (matches (Ahead sep_colon) c2) = Some ([], c2)) as H3
    by (simpl; by rewrite Hx).
  pose proof (head_matches_Cat _ _ _ _ _ H1 H2) as H12.
  pose proof (head_matches_Cat _ _ _ _ _ H12 H3) as H123.
  change (matches (between 0 1 suffix_re) ?c)
    with (rep (matches suffix_re) 0 1 c).
  rewrite rep_S. apply head_app_Some, (head_bind _ _ _ _ H123).
  unfold then_, extend. cbn [fst snd rep pred fmap list_fmap app].
  by rewrite !app_nil_r.
Qed.

(** A section that ends the block is not taken. *)
Lemma no_suffix_at_end p cs tail :
  tail = [] \/ (exists s2 S,
                  tail = [s2] ++ S
                  /\ Forall (fun x => upper_digit x = true) S) ->
  matches suffix_re (Cursor p tail cs) = [].
Proof.
  intros Htail. destruct (matches suffix_re _) as [|a l] eqn:Hm; [done|].
  assert (a ∈ a :: l) as Hin by left. rewrite <- Hm in Hin.
  unfold suffix_re in Hin.
  apply matches_Cat_inv in Hin as (a12 & a3 & Hin & Ha3 & ->).
  apply matches_Cat_inv in Hin as (a1 & a2 & Ha1 & Ha2 & ->).
  apply matches_Chr_inv in Ha1 as (x & s' & Hrest & _ & ->).
  pose proof (matches_consumes _ _ _ Ha2) as Hcons.
  apply matches_Ahead_inv in Ha3 as [_ (y & s'' & Hy & Hsc)].
  simpl in Hrest, Hcons, Hy. rewrite Hy in Hcons.
  destruct Htail as [->|(s2 & S & -> & HS)]; [done|].
  injection Hrest as <- <-. rewrite Hcons in HS.
  apply Forall_app in HS as [_ [Hud _]%Forall_cons].
  apply sep_colon_facts in Hsc as [_ ?]. congruence.
Qed.

Lemma suffix_not_taken p tail :
  (forall p cs, matches suffix_re (Cursor p tail cs) = []) ->
  head (matches (between 0 1 suffix_re) (Cursor p tail []))
  = Some ([], Cursor p tail []).
Proof.
  intros Hno. change (matches (between 0 1 suffix_re) ?c)
    with (rep (matches suffix_re) 0 1 c).
  by rewrite rep_S, Hno.
Qed.

End section_suffix.

(** ** Titles with one or two blocks *)

Section titles.
Import Py Re CanvasCalendarParser.

(** The scan up to and including one bracketed block. *)
Lemma scan_block p pre block tail :
  p <> Some "["%char ->
  Forall (fun x => no_bracket x = true) pre ->
  block <> [] -> Forall (fun x => no_bracket x = true) block ->
  scan class_name_re p 0 (pre ++ chars "[" ++ block ++ chars "]" ++ tail)
  = (Gap <$> pre ++ chars "[")
    ++ Hit block :: Gap "]"%char :: scan class_name_re (Some "]"%char) 0 tail.
Proof.
  intros Hp Hpre Hne Hblock.
  pose proof (Forall_impl _ _ _ Hpre no_bracket_not_open) as Hpre'.
  pose proof (Forall_impl _ _ _ Hblock no_bracket_not_open) as Hblock'.
  rewrite (assoc_L (++) pre), scan_gaps.
  2:{ intros u1 x u2 [w ->]%app_snoc_prefix.
      apply class_name_no_match, prev_after_not_open; [|by left].
      by apply Forall_app in Hpre' as [? _]. }
  rewrite prev_after_app.
  change (prev_after (prev_after p pre) (chars "[")) with (Some "["%char).
  destruct (class_name_matches_head block tail Hne Hblock)
    as (a & l & Hm & Ha).
  rewrite (scan_hit _ _ _ _ _ _ Hm Ha Hne).
  change (chars "]" ++ tail) with ("]"%char :: tail).
  rewrite scan_gap; [done|].
  apply class_name_no_match, prev_after_not_open; [done|by right].
Qed.

Lemma scan_no_block p s :
  p <> Some "["%char -> Forall (fun x => no_bracket x = true) s ->
  scan class_name_re p 0 s = Gap <$> s.
Proof.
  intros Hp Hs. apply scan_all_gaps. intros u v ->.
  apply class_name_no_match, prev_after_not_open; [|by left].
  apply Forall_app in Hs as [Hu _].
  by apply (Forall_impl _ _ _ Hu no_bracket_not_open).
Qed.

Lemma findall_two pre b1 mid b2 post :
  Forall (fun x => no_bracket x = true) pre ->
  b1 <> [] -> Forall (fun x => no_bracket x = true) b1 ->
  Forall (fun x => no_bracket x = true) mid ->
  b2 <> [] -> Forall (fun x => no_bracket x = true) b2 ->
  Forall (fun x => no_bracket x = true) post ->
  findall class_name_re
    (pre ++ chars "[" ++ b1 ++ chars "]" ++ mid
     ++ chars "[" ++ b2 ++ chars "]" ++ post)
  = [b1; b2].
Proof.
  intros Hpre Hn1 Hb1 Hmid Hn2 Hb2 Hpost. unfold findall.
  rewrite scan_block, scan_block, scan_no_block by done.
  rewrite omap_app, omap_gaps. cbn [app omap list_omap].
  change (list_omap ?f ?l) with (omap f l).
  rewrite omap_app, omap_gaps. cbn [app omap list_omap].
  change (list_omap ?f ?l) with (omap f l). by rewrite omap_gaps.
Qed.

Lemma replace_go_gap old new x s :
  startswith old (x :: s) = false ->
  replace_go old new 0 (x :: s) = x :: replace_go old new 0 s.
Proof. cbn [replace_go]. by intros ->. Qed.

(** Taking the last block out of a title with two blocks: the first block
    goes too when it is a copy of the last, and stays otherwise. *)
Lemma replace_last_of_two pre b1 mid b2 post :
  Forall (fun x => no_bracket x = true) pre ->
  Forall (fun x => no_bracket x = true) b1 ->
  Forall (fun x => no_bracket x = true) mid ->
  Forall (fun x => no_bracket x = true) b2 ->
  Forall (fun x => no_bracket x = true) post ->
  replace (chars "[" ++ b2 ++ chars "]") []
          (pre ++ chars "[" ++ b1 ++ chars "]" ++ mid
           ++ chars "[" ++ b2 ++ chars "]" ++ post)
  = if decide (b1 = b2) then pre ++ mid ++ post
    else pre ++ chars "[" ++ b1 ++ chars "]" ++ mid ++ post.
Proof.
  intros Hpre Hb1 Hmid Hb2 Hpost.
  pose proof (Forall_impl _ _ _ Hpre no_bracket_not_open) as Hpre'.
  pose proof (Forall_impl _ _ _ Hb1 no_bracket_not_open) as Hb1'.
  pose proof (Forall_impl _ _ _ Hmid no_bracket_not_open) as Hmid'.
  pose proof (Forall_impl _ _ _ Hpost no_bracket_not_open) as Hpost'.
  set (old := "["%char :: b2 ++ chars "]").
  change (replace (chars "[" ++ b2 ++ chars "]") [] ?s)
    with (replace_go old [] 0 s).
  assert (replace_go old [] 0 (chars "[" ++ b2 ++ chars "]" ++ post) = post)
    as Hlast.
  { replace (chars "[" ++ b2 ++ chars "]" ++ post) with (old ++ post)
      by (unfold old; simpl; by rewrite <- (assoc_L (++))).
    rewrite replace_go_hit by done.
    rewrite <- (app_nil_r post) at 1. unfold old.
    rewrite replace_go_other by done. by rewrite app_nil_r. }
  unfold old at 1. rewrite replace_go_other by done. fold old.
  destruct (decide (b1 = b2)) as [->|Hne].
  - replace (chars "[" ++ b2 ++ chars "]" ++ mid
             ++ chars "[" ++ b2 ++ chars "]" ++ post)
      with (old ++ mid ++ chars "[" ++ b2 ++ chars "]" ++ post)
      by (unfold old; simpl; by rewrite <- (assoc_L (++))).
    rewrite replace_go_hit by done. unfold old at 1.
    rewrite replace_go_other by done. fold old. by rewrite Hlast.
  - change (chars "[" ++ b1 ++ ?t) with ("["%char :: b1 ++ t).
    rewrite replace_go_gap.
    2:{ apply not_true_iff_false. intros [v Hv]%startswith_spec.
        unfold old in Hv. simpl in Hv. injection Hv as Hv.
        rewrite <- (assoc_L (++)) in Hv.
        by apply block_unique in Hv as [? _]. }
    rewrite !(assoc_L (++) b1), (assoc_L (++) (b1 ++ chars "]")).
    unfold old at 1. rewrite replace_go_other.
    2:{ rewrite !Forall_app. split; [split; [done|by repeat constructor]|done]. }
    fold old. rewrite Hlast. by rewrite <- !(assoc_L (++)).
Qed.

(** Spaces become hyphens in a course code with its section. *)
Lemma hyphenate_code_section L s1 D s2 S :
  Forall (fun x => upper x = true) L -> sep s1 = true ->
  Forall (fun x => digit x = true) D -> sep s2 = true ->
  Forall (fun x => upper_digit x = true) S ->
  replace (chars " ") (chars "-") (L ++ [s1] ++ D ++ [s2] ++ S)
  = L ++ chars "-" ++ D ++ chars "-" ++ S.
Proof.
  intros HL Hs1 HD Hs2 HS.
  change (replace (chars " ") (chars "-") ?s)
    with (replace [" "%char] ["-"%char] s).
  rewrite replace_single, !fmap_app.
  f_equal; [|f_equal; [|f_equal; [|f_equal]]].
  - apply fmap_unchanged. eapply Forall_impl; [done|]. simpl.
    intros x (_ & _ & -> & _)%upper_facts. done.
  - simpl. f_equal. by apply sep_facts in Hs1 as (_ & _ & _ & ->).
  - apply fmap_unchanged. eapply Forall_impl; [done|]. simpl.
    intros x (_ & _ & -> & _)%digit_facts. done.
  - simpl. f_equal. by apply sep_facts in Hs2 as (_ & _ & _ & ->).
  - apply fmap_unchanged. eapply Forall_impl; [done|]. simpl.
    intros x Hx. by rewrite (upper_digit_no_space x Hx).
Qed.

(** The right end of a text that [rstrip] takes off. *)
Lemma lstrip_by_suffix f (l : str) : exists u, l = u ++ lstrip_by f l.
Proof.
  induction l as [|x l [u IH]]; [by exists []|]. simpl.
  destruct (f x); [|by exists []]. exists (x :: u). simpl. by f_equal.
Qed.

Lemma rstrip_by_prefix f (t : str) : exists v, t = rstrip_by f t ++ v.
Proof.
  unfold rstrip_by. destruct (lstrip_by_suffix f (reverse t)) as [u Hu].
  exists (reverse u). rewrite <- reverse_app, <- Hu. by rewrite reverse_involutive.
Qed.

End titles.

(** * The claims *)

Section claims_format.
Import Py Re CanvasCalendarParser.

(** C1: the code does not do what the claim says.  For
    ["[MATH-2164-001] Homework 3"] the claim, like the comment above the
    course-code pattern in the source, expects the section suffix [-001] in
    the label; [_format_event] returns ["MATH-2164: Homework 3"].  The suffix
    is taken only when a hyphen, a space or a colon follows it, and at the
    end of the block nothing does. *)
Theorem C1_section_suffix_dropped :
  _format_event (chars "[MATH-2164-001] Homework 3")
  = Ok (chars "MATH-2164: Homework 3")
  /\ _format_event (chars "[MATH-2164-001] Homework 3")
     <> Ok (chars "MATH-2164-001: Homework 3").
Proof. split; vm_compute; [reflexivity|discriminate]. Qed.

(** C2: the code does not do what the claim says.  Given the two pieces of
    ["[MATH-2164-001, MATH-2164-002] Quiz"], [_format_with_slug] returns
    their shared base code of eight characters as the claim has it; but
    [_format_event] hands it the groups of one search, a single piece, and
    returns the label of that piece. *)
Theorem C2_merge_not_reached :
  _format_with_slug [Some (chars "MATH-2164-001"); Some (chars "MATH-2164-002")]
                    (chars "Quiz")
  = Ok (rstrip (chars "-") (take 8 (chars "MATH-2164-001"))
        ++ chars ": " ++ chars "Quiz")
  /\ (exists m,
        search class_slug_re (chars "MATH-2164-001, MATH-2164-002") = Some m
        /\ groups class_slug_re m = [Some (chars "MATH-2164")])
  /\ _format_event (chars "[MATH-2164-001, MATH-2164-002] Quiz")
     = Ok (chars "MATH-2164: Quiz")
  /\ _format_event (chars "[MATH-2164-001, MATH-2164-002] Quiz")
     <> Ok (rstrip (chars "-") (take 8 (chars "MATH-2164-001"))
            ++ chars ": " ++ chars "Quiz").
Proof.
  split; [vm_compute; reflexivity|]. split.
  - eexists. split; vm_compute; reflexivity.
  - split; vm_compute; [reflexivity|discriminate].
Qed.

(** C3: a title without a bracketed substring is returned unchanged (in
    particular a title in which no text at all stands between ["["] and
    ["]"]). *)
Theorem C3_no_bracket_unchanged event_name :
  (forall block, ~ bracketed block event_name) ->
  _format_event event_name = Ok event_name.
Proof. intros Hno. by apply _format_event_plain, findall_nil_iff. Qed.

Lemma C3_no_bracket_unchanged_witness :
  (forall block, ~ bracketed block (chars "Quiz ] 2 [ due [] soon"))
  /\ _format_event (chars "Quiz ] 2 [ due [] soon")
     = Ok (chars "Quiz ] 2 [ due [] soon").
Proof.
  assert (forall block, ~ bracketed block (chars "Quiz ] 2 [ due [] soon"))
    as Hno by (apply findall_nil_iff; vm_compute; reflexivity).
  split; [exact Hno|]. exact (C3_no_bracket_unchanged _ Hno).
Defined.

(** C8: [_format_event] returns a string for every title and never raises;
    the string is the title itself or a label, [": "] and the assignment
    text. *)
Theorem C8_format_event_total event_name :
  exists label,
    _format_event event_name = Ok label
    /\ (label = event_name
        \/ exists class_name head,
             last (findall class_name_re event_name) = Some class_name
             /\ label = head ++ chars ": "
                        ++ assignment_of event_name class_name).
Proof.
  destruct (last (findall class_name_re event_name)) as [class_name|] eqn:Hl.
  - destruct (search class_slug_re class_name) as [m|] eqn:Hm.
    + eexists. split; [by eapply _format_event_slug|].
      right. by eexists _, _.
    + eexists. split; [by eapply _format_event_clean|].
      right. by eexists _, _.
  - eexists. split; [|by left].
    apply _format_event_plain. by apply last_None.
Qed.

(** C9: when the course-code pattern matches the class-name block, the
    tuple of groups is the single captured text, which is not empty, so
    [_format_with_slug] works on one piece and the result is the capture
    with spaces turned into hyphens, [": "] and the assignment. *)
Theorem C9_single_slug event_name class_name m :
  last (findall class_name_re event_name) = Some class_name ->
  search class_slug_re class_name = Some m ->
  groups class_slug_re m = [Some (m_text m)]
  /\ m_text m <> []
  /\ slug_pieces (groups class_slug_re m)
     = [replace (chars " ") (chars "-") (m_text m)]
  /\ _format_event event_name
     = Ok (replace (chars " ") (chars "-") (m_text m) ++ chars ": "
           ++ assignment_of event_name class_name).
Proof.
  intros Hlast Hm. destruct (class_slug_search _ _ Hm) as [Hg Hlen].
  assert (m_text m <> []) as Hne.
  { intros Hnil. rewrite Hnil in Hlen. simpl in Hlen. lia. }
  split; [done|]. split; [done|]. split.
  - rewrite Hg. by destruct (m_text m).
  - by apply _format_event_slug.
Qed.

Lemma C9_single_slug_witness :
  let event_name := chars "Lab 4 [CHEM 1211-L02: General Chemistry]" in
  let class_name := chars "CHEM 1211-L02: General Chemistry" in
  let m := Match [] (chars "CHEM 1211-L02") (chars ": General Chemistry")
                 [(1, chars "CHEM 1211-L02")] in
  last (findall class_name_re event_name) = Some class_name
  /\ search class_slug_re class_name = Some m
  /\ _format_event event_name = Ok (chars "CHEM-1211-L02: Lab 4").
Proof.
  intros event_name class_name m.
  assert (last (findall class_name_re event_name) = Some class_name)
    as Hlast by (vm_compute; reflexivity).
  assert (search class_slug_re class_name = Some m)
    as Hm by (vm_compute; reflexivity).
  split; [exact Hlast|]. split; [exact Hm|].
  exact (proj2 (proj2 (proj2 (C9_single_slug _ _ _ Hlast Hm)))).
Defined.

End claims_format.

Section claims_calendar.
Import Py Re CanvasCalendarParser.

(** C4: when the calendar loads and its events have a start and a title,
    [parse_calendar] returns, under each day, exactly the labels of the
    events of that day whose raw title contains neither ["PAL"] nor
    ["Training"], in calendar order: an event with neither word is in the
    output under its day, and every label in the output comes from such an
    event.  The test reads the raw title, not the label. *)
Theorem C4_filter_on_raw_title w file_path text calendar :
  Path_exists w file_path = Ok true ->
  read_text w file_path = Ok text ->
  Calendar w text = Ok (ics_event <$> calendar) ->
  exists events_by_day,
    parse_calendar w file_path = Ok events_by_day
    /\ (forall day,
          events_by_day !! day
          = match labels_on day calendar with [] => None | ls => Some ls end)
    /\ (forall event,
          event ∈ calendar ->
          ~ substring (chars "PAL") (title event) ->
          ~ substring (chars "Training") (title event) ->
          exists labels,
            events_by_day !! dt_date (start event) = Some labels
            /\ _format_event (title event) = Ok (label_of (title event))
            /\ label_of (title event) ∈ labels)
    /\ (forall day labels label,
          events_by_day !! day = Some labels -> label ∈ labels ->
          exists event,
            event ∈ calendar /\ dt_date (start event) = day
            /\ _format_event (title event) = Ok label
            /\ ~ substring (chars "PAL") (title event)
            /\ ~ substring (chars "Training") (title event)).
Proof.
  intros He Hr Hc.
  destruct (parse_calendar_ok _ _ _ _ He Hr Hc) as (d & Hd & Hlook).
  exists d. split; [done|]. split; [done|]. split.
  - intros event Hin Hpal Htr.
    assert (label_of (title event) ∈ labels_on (dt_date (start event)) calendar)
      as Hl.
    { apply list_elem_of_omap. exists event. split; [done|].
      rewrite (proj2 (kept_spec event)) by done.
      by rewrite bool_decide_eq_true_2. }
    rewrite Hlook. destruct (labels_on _ calendar) as [|l ls] eqn:Hls.
    + by apply elem_of_nil in Hl.
    + exists (l :: ls). split; [done|]. split; [apply label_of_ok|done].
  - intros day labels label Hday Hl. rewrite Hlook in Hday.
    assert (labels = labels_on day calendar) as ->
      by (destruct (labels_on day calendar); congruence).
    apply list_elem_of_omap in Hl as (event & Hin & Hsome).
    destruct (kept event) eqn:Hk; [|done]. simpl in Hsome.
    case_bool_decide as Hdate; [|done]. injection Hsome as <-.
    apply kept_spec in Hk as [Hpal Htr].
    exists event. split; [done|]. split; [done|].
    split; [apply label_of_ok|done].
Qed.

Lemma C4_filter_on_raw_title_witness :
  exists events_by_day,
    parse_calendar example_world (chars "a.ics") = Ok events_by_day
    /\ events_by_day !! Date 2024 10 3
       = Some [chars "MATH-2164-001: HW 2"; chars "ENGL-1101: Essay"].
Proof.
  destruct (C4_filter_on_raw_title example_world (chars "a.ics")
              (chars "BEGIN:VCALENDAR") example_events
              eq_refl eq_refl eq_refl) as (d & Hd & Hlook & _).
  exists d. split; [exact Hd|]. rewrite Hlook. vm_compute. reflexivity.
Defined.

(** C5: two kept events that start on the same calendar date, at whatever
    time, have their labels under the one key of that date.  What [main]
    writes on standard output is, for each day that has a key, an empty
    line, the header of the day and the labels of the day, one per line; the
    days follow each other in strictly ascending order (so each has one
    block), and the labels of a day are those under its key in ascending
    lexicographic order. *)
Theorem C5_grouping_and_order w argv text calendar :
  Path_exists w (path_argument argv) = Ok true ->
  read_text w (path_argument argv) = Ok text ->
  Calendar w text = Ok (ics_event <$> calendar) ->
  exists events_by_day bs,
    parse_calendar w (path_argument argv) = Ok events_by_day
    /\ (forall e1 e2,
          e1 ∈ calendar -> e2 ∈ calendar ->
          kept e1 = true -> kept e2 = true ->
          dt_date (start e1) = dt_date (start e2) ->
          exists labels,
            events_by_day !! dt_date (start e1) = Some labels
            /\ label_of (title e1) ∈ labels /\ label_of (title e2) ∈ labels)
    /\ main w argv
       = Outcome
           (lines (bs ≫= (fun b =>
                            [ [];
                              chars "-- "
                              ++ strftime w (chars "%B %d, %Y (%A)") b.1
                              ++ chars " --" ]
                            ++ b.2)))
           Finished
    /\ StronglySorted date_lt bs.*1
    /\ (forall day ls,
          events_by_day !! day = Some ls -> exists labels, (day, labels) ∈ bs)
    /\ (forall day labels,
          (day, labels) ∈ bs ->
          StronglySorted (ascending str_ltb) labels
          /\ exists ls, events_by_day !! day = Some ls /\ labels ≡ₚ ls).
Proof.
  intros He Hr Hc.
  destruct (parse_calendar_ok _ _ _ _ He Hr Hc) as (d & Hd & Hlook).
  exists d, (blocks d). split; [done|]. split; [|split; [|split; [|split]]].
  - intros e1 e2 Hin1 Hin2 Hk1 Hk2 Hdate.
    assert (forall e, e ∈ calendar -> kept e = true ->
              dt_date (start e) = dt_date (start e1) ->
              label_of (title e) ∈ labels_on (dt_date (start e1)) calendar)
      as Hl.
    { intros e Hin Hk Hday. apply list_elem_of_omap. exists e.
      split; [done|]. by rewrite Hk, bool_decide_eq_true_2. }
    pose proof (Hl e1 Hin1 Hk1 eq_refl) as Hl1.
    pose proof (Hl e2 Hin2 Hk2 (eq_sym Hdate)) as Hl2.
    rewrite Hlook. destruct (labels_on _ calendar) as [|l ls] eqn:Hls.
    + by apply elem_of_nil in Hl1.
    + by exists (l :: ls).
  - by rewrite main_unfold, Hd, render_lines.
  - apply blocks_dates_sorted.
  - intros day ls Hday. exists (sorted str_ltb ls).
    apply blocks_elem. by exists ls.
  - intros day labels (ls & Hday & ->)%blocks_elem. split.
    + apply sorted_Sorted. apply _.
    + exists ls. split; [done|]. apply sorted_Permutation.
Qed.

Lemma C5_grouping_and_order_witness :
  (exists events_by_day bs,
     parse_calendar example_world (chars "a.ics") = Ok events_by_day
     /\ stdout (main example_world [chars "report"; chars "a.ics"])
        = lines (report_lines example_world bs)
     /\ StronglySorted date_lt bs.*1)
  /\ main example_world [chars "report"; chars "a.ics"]
     = Outcome
         (lines [ chars "";
                  chars "-- September 30, 2024 (Monday) --";
                  chars "CS 1234: Intro: Quiz";
                  chars "";
                  chars "-- October 03, 2024 (Thursday) --";
                  chars "ENGL-1101: Essay";
                  chars "MATH-2164-001: HW 2" ])
         Finished.
Proof.
  destruct (C5_grouping_and_order example_world
              [chars "report"; chars "a.ics"]
              (chars "BEGIN:VCALENDAR") example_events
              eq_refl eq_refl eq_refl) as (d & bs & Hd & _ & Hmain & Hs & _).
  split.
  - exists d, bs. split; [exact Hd|]. split; [|exact Hs].
    rewrite Hmain. reflexivity.
  - vm_compute. reflexivity.
Defined.

(** What the example prints: the earlier day first, and under the later
    day the two labels in alphabetical order (the calendar has them the
    other way round). *)
Example main_example_output :
  stdout (main example_world [chars "report"; chars "a.ics"])
  = [nl] ++ chars "-- September 30, 2024 (Monday) --" ++ [nl]
    ++ chars "CS 1234: Intro: Quiz" ++ [nl]
    ++ [nl] ++ chars "-- October 03, 2024 (Thursday) --" ++ [nl]
    ++ chars "ENGL-1101: Essay" ++ [nl]
    ++ chars "MATH-2164-001: HW 2" ++ [nl].
Proof. vm_compute. reflexivity. Qed.

(** C6: [parse_calendar] raises [FileNotFoundError] exactly when the path
    does not exist, and the message then ends with the path; when the path
    exists and the calendar parser rejects the text, it raises [ValueError]
    with the parser's message after a fixed prefix. *)
Theorem C6_load_errors w file_path :
  (forall answer,
     Path_exists w file_path = Ok answer ->
     (exists msg,
        parse_calendar w file_path = Raise (Exn FileNotFoundError msg))
     <-> answer = false)
  /\ (Path_exists w file_path = Ok false ->
      parse_calendar w file_path
      = Raise (Exn FileNotFoundError
                 (chars "Could not find ICS file: " ++ Path_str w file_path)))
  /\ (forall text e,
        Path_exists w file_path = Ok true ->
        read_text w file_path = Ok text ->
        Calendar w text = Raise e ->
        parse_calendar w file_path
        = Raise (Exn ValueError
                   (chars "Failed to parse ICS file: " ++ exn_str e))).
Proof.
  split; [|split].
  - intros answer Hex. split.
    + intros [msg Hraise].
      apply parse_calendar_raises in Hraise
        as [Hp|[[Hp _]|[[_ (e' & _ & [=])]|[_ (calendar & _ & Hg)]]]].
      * congruence.
      * congruence.
      * by apply group_events_raises in Hg as (ev & _ & [[_ ?]|[_ ?]]).
    + intros ->. eexists. unfold parse_calendar. by rewrite Hex.
  - intros Hex. unfold parse_calendar. by rewrite Hex.
  - intros text e Hex Hr Hc. unfold parse_calendar. rewrite Hex, Hr. simpl.
    by rewrite Hc.
Qed.

Lemma C6_load_errors_witness :
  parse_calendar example_world (chars "missing.ics")
  = Raise (Exn FileNotFoundError (chars "Could not find ICS file: missing.ics"))
  /\ parse_calendar example_world (chars "notes.txt")
     = Raise (Exn ValueError (chars "Failed to parse ICS file: no VCALENDAR")).
Proof.
  split.
  - exact (proj1 (proj2 (C6_load_errors example_world (chars "missing.ics")))
             eq_refl).
  - exact (proj2 (proj2 (C6_load_errors example_world (chars "notes.txt")))
             (chars "hello")
             (Exn (OtherException (chars "ParserError")) (chars "no VCALENDAR"))
             eq_refl eq_refl eq_refl).
Defined.

(** C7: when [parse_calendar] raises a [FileNotFoundError] or a
    [ValueError], [main] writes the line ["Error: "] followed by the message
    on standard output and exits with status 1.  The hint line follows when
    the message is that of the missing default file; where the existence
    check gave an answer, that is exactly when the file is missing and its
    path is the default file name. *)
Theorem C7_error_report w argv e :
  parse_calendar w (path_argument argv) = Raise e ->
  exn_class e = FileNotFoundError \/ exn_class e = ValueError ->
  main w argv
  = Outcome
      (lines
         ((chars "Error: " ++ exn_str e)
          :: (if bool_decide
                   (exn_str e
                    = chars "Could not find ICS file: canvas_export.ics")
              then [chars "Specify a file or rename it to 'canvas_export.ics' and place in this directory."]
              else [])))
      (SysExit 1)
  /\ (forall answer,
        Path_exists w (path_argument argv) = Ok answer ->
        exn_str e = chars "Could not find ICS file: canvas_export.ics"
        <-> answer = false
            /\ Path_str w (path_argument argv) = chars "canvas_export.ics").
Proof.
  intros Hraise Hclass. split.
  - rewrite main_unfold, Hraise.
    assert (caught e = true) as -> by (unfold caught; by destruct Hclass as [->| ->]).
    unfold lines, print, nl, hint_line. f_equal.
    case_bool_decide; cbn [mbind list_bind]; by rewrite ?app_nil_r.
  - intros answer Hex.
    apply parse_calendar_raises in Hraise
      as [Hp|[[Hp ->]|[[Hp (e' & _ & ->)]|[_ (calendar & _ & Hg)]]]].
    + congruence.
    + cbn [exn_str]. split.
      * intros Heq. split; [congruence|].
        by apply (app_inv_head (chars "Could not find ICS file: ")).
      * by intros [_ ->].
    + cbn [exn_str]. split; [done|]. intros [-> _]. congruence.
    + apply group_events_raises in Hg as (ev & _ & [[_ Hc]|[_ Hc]]);
        rewrite Hc in Hclass; by destruct Hclass.
Qed.

Lemma C7_error_report_witness :
  main example_world [chars "report"]
  = Outcome
      (lines [ chars "Error: Could not find ICS file: canvas_export.ics";
               chars "Specify a file or rename it to 'canvas_export.ics' and place in this directory." ])
      (SysExit 1)
  /\ main example_world [chars "report"; chars "notes.txt"]
     = Outcome
         (lines [chars "Error: Failed to parse ICS file: no VCALENDAR"])
         (SysExit 1).
Proof.
  split.
  - exact (proj1 (C7_error_report example_world [chars "report"]
                    (Exn FileNotFoundError
                       (chars "Could not find ICS file: canvas_export.ics"))
                    eq_refl (or_introl eq_refl))).
  - exact (proj1 (C7_error_report example_world
                    [chars "report"; chars "notes.txt"]
                    (Exn ValueError
                       (chars "Failed to parse ICS file: no VCALENDAR"))
                    eq_refl (or_intror eq_refl))).
Defined.

(** C10, as stated, fails: a calendar that loads and has an event without
    SUMMARY makes [parse_calendar] raise a [TypeError], from the loop after
    the [try] block. *)
Lemma C10_counterexample :
  exists e,
    parse_calendar untitled_world (chars "a.ics") = Raise e
    /\ exn_class e = TypeError
    /\ exn_class e <> FileNotFoundError /\ exn_class e <> ValueError.
Proof. eexists. split; [vm_compute; reflexivity|]. by cbn. Qed.

(** C10, amended: when the existence check gives an answer and the events of
    the calendar, if it loads, all have a start and a title,
    [parse_calendar] raises nothing but [FileNotFoundError] and
    [ValueError]; on an existing path every exception of reading the file
    (opening, decoding, I/O) or of parsing it comes out as a [ValueError]
    that carries its message. *)
Theorem C10_errors_of_loading w file_path :
  (forall answer e,
     Path_exists w file_path = Ok answer ->
     (forall text calendar,
        read_text w file_path = Ok text -> Calendar w text = Ok calendar ->
        exists events, calendar = ics_event <$> events) ->
     parse_calendar w file_path = Raise e ->
     exn_class e = FileNotFoundError \/ exn_class e = ValueError)
  /\ (forall e,
        Path_exists w file_path = Ok true ->
        read_text w file_path = Raise e
        \/ (exists text,
              read_text w file_path = Ok text /\ Calendar w text = Raise e) ->
        parse_calendar w file_path
        = Raise (Exn ValueError
                   (chars "Failed to parse ICS file: " ++ exn_str e))).
Proof.
  split.
  - intros answer e Hex Hall Hraise.
    apply parse_calendar_raises in Hraise
      as [Hp|[[_ ->]|[[_ (e' & _ & ->)]|[_ (calendar & Hload & Hg)]]]].
    + congruence.
    + by left.
    + by right.
    + destruct (read_text w file_path) as [text|] eqn:Hr; [|done].
      cbn [mbind result_bind] in Hload.
      destruct (Hall text calendar eq_refl Hload) as [events ->].
      by destruct (group_events_spec events ∅) as (d & Hd & _); congruence.
  - intros e Hex Hload. unfold parse_calendar. rewrite Hex. simpl.
    destruct Hload as [->|(text & -> & Hc)]; simpl; [done|]. by rewrite Hc.
Qed.

Lemma C10_errors_of_loading_witness :
  parse_calendar unreadable_world (chars "export.ics")
  = Raise (Exn ValueError
             (chars "Failed to parse ICS file: invalid start byte"))
  /\ (exn_class
        (Exn ValueError (chars "Failed to parse ICS file: no VCALENDAR"))
      = FileNotFoundError
      \/ exn_class
           (Exn ValueError (chars "Failed to parse ICS file: no VCALENDAR"))
         = ValueError).
Proof.
  split.
  - exact (proj2 (C10_errors_of_loading unreadable_world (chars "export.ics"))
             (Exn ValueError (chars "invalid start byte"))
             eq_refl (or_introl eq_refl)).
  - refine (proj1 (C10_errors_of_loading example_world (chars "notes.txt"))
              true
              (Exn ValueError (chars "Failed to parse ICS file: no VCALENDAR"))
              eq_refl _ eq_refl).
    intros text calendar [= <-]. discriminate.
Defined.

(** The filter reads the raw title: a title that holds ["PAL"] is dropped
    even if its label would not show it, and a title without it is kept even
    if its label does. *)
Example filter_reads_raw_title :
  let dropped := {| start := DateTime (Date 2024 10 3) 9 0 0;
                    title := chars "Session [MATH-1234 PAL]" |} in
  let taken := {| start := DateTime (Date 2024 10 3) 9 0 0;
                  title := chars "P[x]AL" |} in
  kept dropped = false /\ label_of (title dropped) = chars "MATH-1234: Session"
  /\ kept taken = true /\ label_of (title taken) = chars "x: PAL".
Proof. vm_compute. done. Qed.

End claims_calendar.

(** * Further properties *)

Section further_format.
Import Py Re CanvasCalendarParser.

(** [_format_with_slug] fails with [IndexError] exactly when no piece is
    left after the empty ones are dropped; otherwise it returns a code,
    [": "] and the assignment, where the code is the first piece or its
    first eight characters without trailing hyphens, in both cases a prefix
    of the first piece, and the first piece itself when it is the only
    one. *)
Theorem format_with_slug_cases slugs assignment :
  match slug_pieces slugs with
  | [] =>
      _format_with_slug slugs assignment
      = Raise (Exn IndexError (chars "list index out of range"))
  | slug0 :: others =>
      exists code,
        _format_with_slug slugs assignment
        = Ok (code ++ chars ": " ++ assignment)
        /\ (code = slug0 \/ code = rstrip (chars "-") (take 8 slug0))
        /\ startswith code slug0 = true
        /\ (others = [] -> code = slug0)
  end.
Proof.
  unfold _format_with_slug.
  destruct (slug_pieces slugs) as [|slug0 others]; [done|].
  assert (startswith slug0 slug0 = true) as Hself.
  { apply startswith_spec. exists []. by rewrite app_nil_r. }
  case_bool_decide as Hlen.
  - exists slug0. split; [done|]. split; [by left|]. by split.
  - destruct (forallb _ _).
    + exists (rstrip (chars "-") (take 8 slug0)).
      split; [done|]. split; [by right|]. split.
      * apply startswith_spec. unfold rstrip.
        destruct (rstrip_by_prefix
                    (fun c => existsb (fun a => is_char a c) (chars "-"))
                    (take 8 slug0)) as [v Hv].
        exists (v ++ drop 8 slug0).
        by rewrite (assoc_L (++)), <- Hv, take_drop.
      * intros ->. by destruct Hlen.
    + exists slug0. split; [done|]. split; [by left|]. split; [done|].
      intros ->. by destruct Hlen.
Qed.

(** [_format_event] on a title with one bracketed block. *)
Lemma format_event_one_block pre block post :
  Forall (fun x => no_bracket x = true) pre ->
  block <> [] -> Forall (fun x => no_bracket x = true) block ->
  Forall (fun x => no_bracket x = true) post ->
  _format_event (pre ++ chars "[" ++ block ++ chars "]" ++ post)
  = Ok (class_label block ++ chars ": " ++ strip (pre ++ post)).
Proof.
  intros Hpre Hne Hblock Hpost.
  assert (last (findall class_name_re
                  (pre ++ chars "[" ++ block ++ chars "]" ++ post))
          = Some block) as Hlast by (by rewrite findall_single).
  unfold class_label.
  destruct (search class_slug_re block) as [m|] eqn:Hm.
  - rewrite (_format_event_slug _ _ _ Hlast Hm). by rewrite replace_block.
  - rewrite (_format_event_clean _ _ Hlast Hm). by rewrite replace_block.
Qed.

(** A title with exactly one bracketed block: the label is made from the
    block, the assignment is the text around the block, trimmed. *)
Theorem single_block_label pre block post :
  Forall (fun x => no_bracket x = true) pre ->
  block <> [] -> Forall (fun x => no_bracket x = true) block ->
  Forall (fun x => no_bracket x = true) post ->
  _format_event (pre ++ chars "[" ++ block ++ chars "]" ++ post)
  = Ok (class_label block ++ chars ": " ++ strip (pre ++ post)).
Proof. apply format_event_one_block. Qed.

Lemma single_block_label_witness :
  _format_event (chars "Lab 4 [CHEM 1211-L02: General Chemistry] due")
  = Ok (chars "CHEM-1211-L02: Lab 4  due").
Proof.
  refine (single_block_label (chars "Lab 4 ")
            (chars "CHEM 1211-L02: General Chemistry") (chars " due")
            _ _ _ _);
    first [ discriminate | repeat constructor ].
Defined.

(** A title with two bracketed blocks: the label is made from the last
    block alone.  The first block stays in the assignment, brackets
    included, unless it is a copy of the last; then both are taken out. *)
Theorem two_blocks_last_wins pre b1 mid b2 post :
  Forall (fun x => no_bracket x = true) pre ->
  b1 <> [] -> Forall (fun x => no_bracket x = true) b1 ->
  Forall (fun x => no_bracket x = true) mid ->
  b2 <> [] -> Forall (fun x => no_bracket x = true) b2 ->
  Forall (fun x => no_bracket x = true) post ->
  _format_event
    (pre ++ chars "[" ++ b1 ++ chars "]" ++ mid
     ++ chars "[" ++ b2 ++ chars "]" ++ post)
  = Ok (class_label b2 ++ chars ": "
        ++ strip (if decide (b1 = b2) then pre ++ mid ++ post
                  else pre ++ chars "[" ++ b1 ++ chars "]" ++ mid ++ post)).
Proof.
  intros Hpre Hn1 Hb1 Hmid Hn2 Hb2 Hpost.
  assert (last (findall class_name_re
                  (pre ++ chars "[" ++ b1 ++ chars "]" ++ mid
                   ++ chars "[" ++ b2 ++ chars "]" ++ post))
          = Some b2) as Hlast by (by rewrite findall_two).
  unfold class_label.
  destruct (search class_slug_re b2) as [m|] eqn:Hm.
  - rewrite (_format_event_slug _ _ _ Hlast Hm).
    by rewrite replace_last_of_two.
  - rewrite (_format_event_clean _ _ Hlast Hm).
    by rewrite replace_last_of_two.
Qed.

Lemma two_blocks_last_wins_witness :
  _format_event (chars "[Draft] Essay 2 [ENGL-1101-A: Composition]")
  = Ok (chars "ENGL-1101-A: [Draft] Essay 2")
  /\ _format_event (chars "[Biology] Quiz [Biology]") = Ok (chars "Biology: Quiz").
Proof.
  split.
  - refine (two_blocks_last_wins [] (chars "Draft") (chars " Essay 2 ")
              (chars "ENGL-1101-A: Composition") [] _ _ _ _ _ _ _);
      first [ discriminate | repeat constructor ].
  - refine (two_blocks_last_wins [] (chars "Biology") (chars " Quiz ")
              (chars "Biology") [] _ _ _ _ _ _ _);
      first [ discriminate | repeat constructor ].
Defined.

(** A class name without any digit is cleaned by deleting every
    ["_Combined"] and nothing else; without that marker it comes back as it
    is, followed by [": "] and the assignment. *)
Theorem clean_class_name_without_digits class_name assignment :
  Forall (fun x => digit x = false) class_name ->
  _clean_class_name class_name assignment
  = replace (chars "_Combined") [] class_name ++ chars ": " ++ assignment
  /\ (~ substring (chars "_Combined") class_name ->
      _clean_class_name class_name assignment
      = class_name ++ chars ": " ++ assignment).
Proof.
  intros Hnd. unfold _clean_class_name.
  rewrite clean_without_digits by done. split; [done|].
  intros Hno. by rewrite replace_absent.
Qed.

Lemma clean_class_name_without_digits_witness :
  _clean_class_name (chars "Organic Chemistry_Combined") (chars "Lab report")
  = chars "Organic Chemistry: Lab report".
Proof.
  refine (proj1 (clean_class_name_without_digits
                   (chars "Organic Chemistry_Combined") (chars "Lab report")
                   _)).
  repeat constructor.
Defined.

(** A title whose one block has no digit: the label is the block with
    every ["_Combined"] deleted. *)
Theorem plain_block_label pre block post :
  Forall (fun x => no_bracket x = true) pre ->
  block <> [] -> Forall (fun x => no_bracket x = true) block ->
  Forall (fun x => digit x = false) block ->
  Forall (fun x => no_bracket x = true) post ->
  _format_event (pre ++ chars "[" ++ block ++ chars "]" ++ post)
  = Ok (replace (chars "_Combined") [] block ++ chars ": "
        ++ strip (pre ++ post)).
Proof.
  intros Hpre Hne Hblock Hnd Hpost.
  rewrite format_event_one_block by done. unfold class_label.
  rewrite (search_no_digit _ _ class_slug_needs_digit Hnd).
  by rewrite clean_without_digits.
Qed.

Lemma plain_block_label_witness :
  _format_event (chars "Reading response [World History_Combined]")
  = Ok (chars "World History: Reading response").
Proof.
  refine (plain_block_label (chars "Reading response ")
            (chars "World History_Combined") [] _ _ _ _ _);
    first [ discriminate | repeat constructor ].
Defined.

(** A block that begins with a course code and a section of at most three
    characters, a separator or a colon coming next: the label holds subject,
    number and section joined by hyphens. *)
Theorem section_kept_before_separator pre post L s1 D s2 S x tail :
  length L = 3 \/ length L = 4 ->
  Forall (fun x => upper x = true) L -> sep s1 = true ->
  length D = 4 -> Forall (fun x => digit x = true) D ->
  sep s2 = true -> Forall (fun x => upper_digit x = true) S ->
  length S <= 3 -> sep_colon x = true ->
  Forall (fun x => no_bracket x = true) tail ->
  Forall (fun x => no_bracket x = true) pre ->
  Forall (fun x => no_bracket x = true) post ->
  _format_event
    (pre ++ chars "[" ++ (L ++ [s1] ++ D ++ [s2] ++ S ++ [x] ++ tail)
     ++ chars "]" ++ post)
  = Ok (L ++ chars "-" ++ D ++ chars "-" ++ S ++ chars ": "
        ++ strip (pre ++ post)).
Proof.
  intros HL Hup Hs1 HD Hdig Hs2 HS Hlen Hx Htail Hpre Hpost.
  rewrite format_event_one_block; [|done| |..|done].
  - unfold class_label.
    rewrite (class_slug_at_start_with L s1 D _ _ _ HL Hup Hs1 HD Hdig
               (suffix_taken _ s2 S x tail Hs2 HS Hlen Hx)).
    cbn [m_text]. rewrite hyphenate_code_section by done.
    by rewrite <- !(assoc_L (++)).
  - destruct L; [simpl in HL; lia|done].
  - rewrite !Forall_app. repeat split; try done.
    + eapply Forall_impl; [done|]. by intros y [? _]%upper_facts.
    + constructor; [|done]. by apply sep_facts in Hs1 as [? _].
    + eapply Forall_impl; [done|]. by intros y [? _]%digit_facts.
    + constructor; [|done]. by apply sep_facts in Hs2 as [? _].
    + eapply Forall_impl; [done|]. by intros y [? _]%upper_digit_facts.
    + constructor; [|done]. by apply sep_colon_facts in Hx as [? _].
Qed.

Lemma section_kept_before_separator_witness :
  _format_event (chars "Problem set 5 [PHYS 2211 K1-Fall 2024]")
  = Ok (chars "PHYS-2211-K1: Problem set 5").
Proof.
  refine (section_kept_before_separator
            (chars "Problem set 5 ") [] (chars "PHYS") " "%char (chars "2211")
            " "%char (chars "K1") "-"%char (chars "Fall 2024")
            _ _ _ _ _ _ _ _ _ _ _ _);
    first [ right; reflexivity | reflexivity | simpl; lia
          | repeat constructor ].
Defined.

(** A block that is a course code alone, or a course code and a section
    that ends the block: the label holds subject and number only. *)
Theorem section_dropped_at_end pre post L s1 D tail :
  length L = 3 \/ length L = 4 ->
  Forall (fun x => upper x = true) L -> sep s1 = true ->
  length D = 4 -> Forall (fun x => digit x = true) D ->
  tail = [] \/ (exists s2 S,
                  tail = [s2] ++ S /\ sep s2 = true
                  /\ Forall (fun x => upper_digit x = true) S) ->
  Forall (fun x => no_bracket x = true) pre ->
  Forall (fun x => no_bracket x = true) post ->
  _format_event
    (pre ++ chars "[" ++ (L ++ [s1] ++ D ++ tail) ++ chars "]" ++ post)
  = Ok (L ++ chars "-" ++ D ++ chars ": " ++ strip (pre ++ post)).
Proof.
  intros HL Hup Hs1 HD Hdig Htail Hpre Hpost.
  rewrite format_event_one_block; [|done| |..|done].
  - unfold class_label. rewrite (class_slug_at_start L s1 D tail); try done.
    + cbn [m_text]. rewrite hyphenate_code by done.
      by rewrite <- !(assoc_L (++)).
    + intros p cs. apply no_suffix_at_end.
      destruct Htail as [?|(s2 & S & ? & _ & ?)]; [by left|right].
      by exists s2, S.
  - destruct L; [simpl in HL; lia|done].
  - rewrite !Forall_app. repeat split; try done.
    + eapply Forall_impl; [done|]. by intros y [? _]%upper_facts.
    + constructor; [|done]. by apply sep_facts in Hs1 as [? _].
    + eapply Forall_impl; [done|]. by intros y [? _]%digit_facts.
    + destruct Htail as [->|(s2 & S & -> & Hs2 & HS)]; [done|].
      constructor; [by apply sep_facts in Hs2 as [? _]|].
      eapply Forall_impl; [done|]. by intros y [? _]%upper_digit_facts.
Qed.

Lemma section_dropped_at_end_witness :
  _format_event (chars "Homework 3 [MATH-2164]")
  = Ok (chars "MATH-2164: Homework 3")
  /\ _format_event (chars "Homework 3 [MATH-2164-H001]")
     = Ok (chars "MATH-2164: Homework 3").
Proof.
  split.
  - refine (section_dropped_at_end (chars "Homework 3 ") []
              (chars "MATH") "-"%char (chars "2164") [] _ _ _ _ _ _ _ _);
      first [ right; reflexivity | reflexivity | by left
            | repeat constructor ].
  - refine (section_dropped_at_end (chars "Homework 3 ") []
              (chars "MATH") "-"%char (chars "2164") (chars "-H001")
              _ _ _ _ _ _ _ _);
      first [ right; reflexivity | reflexivity
            | right; exists "-"%char, (chars "H001");
              split; [reflexivity|split; [reflexivity|repeat constructor]]
            | repeat constructor ].
Defined.

(** A block that lists several sections: when it begins with a course code
    and a section of capitals or digits, followed by a comma, a space and
    any further text, the label is the subject and the number of that first
    piece; its section and the other pieces are left out. *)
Theorem first_piece_before_comma pre post L s1 D s2 S1 p2 :
  length L = 3 \/ length L = 4 ->
  Forall (fun x => upper x = true) L -> sep s1 = true ->
  length D = 4 -> Forall (fun x => digit x = true) D ->
  sep s2 = true -> Forall (fun x => upper_digit x = true) S1 ->
  Forall (fun x => no_bracket x = true) p2 ->
  Forall (fun x => no_bracket x = true) pre ->
  Forall (fun x => no_bracket x = true) post ->
  _format_event
    (pre ++ chars "[" ++ (L ++ [s1] ++ D ++ [s2] ++ S1 ++ chars ", " ++ p2)
     ++ chars "]" ++ post)
  = Ok (L ++ chars "-" ++ D ++ chars ": " ++ strip (pre ++ post)).
Proof. apply format_multi_section. Qed.

Lemma first_piece_before_comma_witness :
  _format_event (chars "Lab 2 [CHEM 1211-L01, CHEM 1211-L02]")
  = Ok (chars "CHEM-1211: Lab 2").
Proof.
  refine (first_piece_before_comma
            (chars "Lab 2 ") [] (chars "CHEM") " "%char (chars "1211")
            "-"%char (chars "L01") (chars "CHEM 1211-L02")
            _ _ _ _ _ _ _ _ _ _);
    first [ right; reflexivity | reflexivity
          | repeat constructor ].
Defined.

End further_format.

Section further_report.
Import Py Re CanvasCalendarParser.

(** Appending a label under a day adds that label to the mapping and
    nothing else. *)
Lemma append_label (acc : gmap date (list str)) k x :
  map_to_list (<[k := default [] (acc !! k) ++ [x]]> acc) ≫= snd
  ≡ₚ (map_to_list acc ≫= snd) ++ [x].
Proof.
  destruct (acc !! k) as [v|] eqn:Hk; simpl.
  - rewrite <- insert_delete_eq.
    rewrite map_to_list_insert by apply lookup_delete_eq.
    rewrite <- (map_to_list_delete acc k v Hk). simpl.
    rewrite <- !(assoc_L (++)). f_equiv. apply Permutation_app_comm.
  - rewrite map_to_list_insert by done. simpl.
    by rewrite Permutation_app_comm.
Qed.

Lemma group_events_labels events acc d :
  group_events (ics_event <$> events) acc = Ok d ->
  map_to_list d ≫= snd
  ≡ₚ (map_to_list acc ≫= snd)
     ++ ((fun e => label_of (title e))
           <$> filter (fun e => kept e = true) events).
Proof.
  revert acc. induction events as [|event events IH]; intros acc.
  - intros [= ->]. by rewrite app_nil_r.
  - rewrite fmap_cons, group_events_cons.
    destruct (kept event) eqn:Hk.
    + intros Hd.
      rewrite (IH _ Hd), append_label, filter_cons_True by done.
      by rewrite fmap_cons, <- (assoc_L (++)).
    + intros Hd. rewrite (IH _ Hd), filter_cons_False; [done|].
      by rewrite Hk.
Qed.

Lemma blocks_labels d : printed_labels (blocks d) ≡ₚ map_to_list d ≫= snd.
Proof.
  unfold printed_labels, blocks.
  rewrite <- (sorted_Permutation item_ltb (map_to_list d)) at 2.
  induction (sorted item_ltb (map_to_list d)) as [|it l IH]; [done|].
  rewrite fmap_cons. cbn [mbind list_bind snd].
  change (list_bind ?f ?l) with (l ≫= f).
  by rewrite IH, sorted_Permutation.
Qed.

(** When the calendar loads and its events have a start and a title, [main]
    ends normally and writes, for a list of days with their labels, an empty
    line, the header and the labels of each day; the labels of all the days
    are, with their multiplicity, the labels of the events that pass the
    filter: none is lost and none is printed twice. *)
Theorem report_lists_kept_events w argv text calendar :
  Path_exists w (path_argument argv) = Ok true ->
  read_text w (path_argument argv) = Ok text ->
  Calendar w text = Ok (ics_event <$> calendar) ->
  exists bs,
    main w argv
    = Outcome
        (lines (bs ≫= (fun b =>
                         [ [];
                           chars "-- "
                           ++ strftime w (chars "%B %d, %Y (%A)") b.1
                           ++ chars " --" ]
                         ++ b.2)))
        Finished
    /\ bs ≫= snd
       ≡ₚ (fun e => label_of (title e))
            <$> filter (fun e => kept e = true) calendar.
Proof.
  intros He Hr Hc.
  destruct (parse_calendar_ok _ _ _ _ He Hr Hc) as (d & Hd & _).
  exists (blocks d). split; [by rewrite main_unfold, Hd, render_lines|].
  fold (printed_labels (blocks d)). rewrite blocks_labels.
  unfold parse_calendar in Hd. rewrite He, Hr in Hd. simpl in Hd.
  rewrite Hc in Hd. rewrite (group_events_labels _ _ _ Hd).
  by rewrite map_to_list_empty.
Qed.

Lemma report_lists_kept_events_witness :
  exists bs,
    main example_world [chars "report"; chars "a.ics"]
    = Outcome (lines (report_lines example_world bs)) Finished
    /\ bs ≫= snd
       ≡ₚ [chars "MATH-2164-001: HW 2"; chars "CS 1234: Intro: Quiz";
           chars "ENGL-1101: Essay"].
Proof.
  destruct (report_lists_kept_events example_world
              [chars "report"; chars "a.ics"]
              (chars "BEGIN:VCALENDAR") example_events
              eq_refl eq_refl eq_refl) as (bs & Hmain & Hl).
  exists bs. split; [exact Hmain|exact Hl].
Defined.

#[local] Instance str_ltb_strict : StrictTotal str_ltb.
Proof. unfold str_ltb. apply _. Qed.

Lemma sorted_perm_eq {A} (ltb : A -> A -> bool) `{!StrictTotal ltb} l l' :
  l ≡ₚ l' -> sorted ltb l = sorted ltb l'.
Proof.
  intros Hp. apply sorted_unique; [done| |].
  - by rewrite sorted_Permutation.
  - apply StronglySorted_Sorted, sorted_Sorted. apply _.
Qed.

Lemma StronglySorted_fmap_inv {A B} (R : relation B) (f : A -> B) l :
  StronglySorted R (f <$> l) -> StronglySorted (fun a b => R (f a) (f b)) l.
Proof.
  induction l as [|x l IH]; [constructor|]. rewrite fmap_cons.
  intros [Hs Hx]%StronglySorted_inv. constructor; [by apply IH|].
  rewrite Forall_fmap in Hx. exact Hx.
Qed.

(** Two mappings that hold the same labels under the same days, in whatever
    order, give the same report. *)
Lemma blocks_ext (d1 d2 : gmap date (list str)) :
  (forall day,
      match d1 !! day, d2 !! day with
      | Some l1, Some l2 => l1 ≡ₚ l2
      | None, None => True
      | _, _ => False
      end) ->
  blocks d1 = blocks d2.
Proof.
  intros Heq.
  assert (forall d, NoDup (blocks d)) as Hnd.
  { intros d. apply (NoDup_fmap_1 fst). rewrite blocks_dates.
    rewrite sorted_Permutation. apply NoDup_fst_map_to_list. }
  assert (forall d : gmap date (list str),
             StronglySorted (fun a b : date * list str => date_lt a.1 b.1)
                            (blocks d)) as Hs.
  { intros d. apply StronglySorted_fmap_inv, blocks_dates_sorted. }
  assert (Transitive (fun a b : date * list str => date_lt a.1 b.1)) as Htr.
  { intros a b c. apply (ltb_trans (ltb := date_ltb)). }
  assert (AntiSymm (=) (fun a b : date * list str => date_lt a.1 b.1)) as Has.
  { intros a b Hab Hba. unfold date_lt in *.
    by rewrite (ltb_asym _ _ _ Hab) in Hba. }
  apply (StronglySorted_unique
           (fun a b : date * list str => date_lt a.1 b.1)); [done..|].
  apply NoDup_Permutation; [done..|]. intros [day labels].
  rewrite !blocks_elem. specialize (Heq day). split.
  - intros (l1 & H1 & ->). rewrite H1 in Heq.
    destruct (d2 !! day) as [l2|]; [|done]. exists l2. split; [done|].
    apply sorted_perm_eq; [apply _|done].
  - intros (l2 & H2 & ->). rewrite H2 in Heq.
    destruct (d1 !! day) as [l1|]; [|done]. exists l1. split; [done|].
    symmetry. apply sorted_perm_eq; [apply _|done].
Qed.

(** The report does not depend on the order in which the calendar lists its
    events (events that have a start and a title). *)
Theorem report_ignores_calendar_order w w' argv argv' text text'
    calendar calendar' :
  Path_exists w (path_argument argv) = Ok true ->
  read_text w (path_argument argv) = Ok text ->
  Calendar w text = Ok (ics_event <$> calendar) ->
  Path_exists w' (path_argument argv') = Ok true ->
  read_text w' (path_argument argv') = Ok text' ->
  Calendar w' text' = Ok (ics_event <$> calendar') ->
  calendar ≡ₚ calendar' ->
  exists bs,
    main w argv = Outcome (render w bs) Finished
    /\ main w' argv' = Outcome (render w' bs) Finished.
Proof.
  intros He Hr Hc He' Hr' Hc' Hperm.
  destruct (parse_calendar_ok _ _ _ _ He Hr Hc) as (d & Hd & Hlook).
  destruct (parse_calendar_ok _ _ _ _ He' Hr' Hc') as (d' & Hd' & Hlook').
  exists (blocks d). rewrite !main_unfold, Hd, Hd'. split; [done|].
  do 2 f_equal. symmetry. apply blocks_ext. intros day.
  rewrite Hlook, Hlook'.
  assert (labels_on day calendar ≡ₚ labels_on day calendar') as Hl
    by (unfold labels_on; by rewrite Hperm).
  destruct (labels_on day calendar) as [|l ls].
  - by apply Permutation_nil in Hl as ->.
  - destruct (labels_on day calendar') as [|l' ls']; [|done].
    symmetry in Hl. by apply Permutation_nil in Hl.
Qed.

Lemma report_ignores_calendar_order_witness :
  exists bs,
    main example_world [chars "report"; chars "a.ics"]
    = Outcome (render example_world bs) Finished
    /\ main reversed_world [chars "report"; chars "a.ics"]
       = Outcome (render reversed_world bs) Finished.
Proof.
  refine (report_ignores_calendar_order example_world reversed_world
            [chars "report"; chars "a.ics"] [chars "report"; chars "a.ics"]
            (chars "BEGIN:VCALENDAR") (chars "BEGIN:VCALENDAR")
            example_events (reverse example_events)
            eq_refl eq_refl eq_refl eq_refl eq_refl eq_refl _).
  symmetry. apply reverse_Permutation.
Defined.

Lemma labels_on_none day events :
  Forall (fun e => kept e = false) events -> labels_on day events = [].
Proof.
  induction 1 as [|e l He _ IH]; [done|].
  by rewrite labels_on_cons, He, IH.
Qed.

(** When the calendar loads and its events have a start and a title,
    nothing is printed exactly when no event passes the filter (an empty
    calendar included); the program still ends normally. *)
Theorem empty_report w argv text calendar :
  Path_exists w (path_argument argv) = Ok true ->
  read_text w (path_argument argv) = Ok text ->
  Calendar w text = Ok (ics_event <$> calendar) ->
  exit_status (main w argv) = Finished
  /\ (stdout (main w argv) = []
      <-> Forall (fun e => kept e = false) calendar).
Proof.
  intros He Hr Hc.
  destruct (parse_calendar_ok _ _ _ _ He Hr Hc) as (d & Hd & Hlook).
  rewrite main_unfold, Hd. cbn [exit_status stdout]. split; [done|]. split.
  - intros Hnil. apply Forall_forall. intros e Hin.
    destruct (kept e) eqn:Hk; [|done].
    assert (label_of (title e) ∈ labels_on (dt_date (start e)) calendar) as Hl.
    { apply list_elem_of_omap. exists e. split; [done|].
      by rewrite Hk, bool_decide_eq_true_2. }
    specialize (Hlook (dt_date (start e))).
    destruct (labels_on _ calendar) as [|l ls]; [by apply elem_of_nil in Hl|].
    assert ((dt_date (start e), sorted str_ltb (l :: ls)) ∈ blocks d) as Hb
      by (apply blocks_elem; by exists (l :: ls)).
    destruct (blocks d) as [|b bs]; [by apply elem_of_nil in Hb|].
    done.
  - intros Hall.
    assert (d = ∅) as ->.
    { apply map_empty. intros day. rewrite Hlook.
      by rewrite labels_on_none. }
    unfold blocks. by rewrite map_to_list_empty.
Qed.

Lemma empty_report_witness :
  stdout (main filtered_world [chars "report"]) = []
  /\ exit_status (main filtered_world [chars "report"]) = Finished.
Proof.
  destruct (empty_report filtered_world [chars "report"] (chars "text")
              filtered_events eq_refl eq_refl eq_refl) as [Hfin [_ Hout]].
  split; [|exact Hfin]. apply Hout. repeat constructor.
Defined.

(** When the calendar loads but one of its events has no start or no title,
    [parse_calendar] raises an [AttributeError] or a [TypeError] that [main]
    does not catch: nothing is written on standard output, the labels of the
    other events included, and the program ends with the exception. *)
Theorem incomplete_event_escapes w argv text calendar event :
  Path_exists w (path_argument argv) = Ok true ->
  read_text w (path_argument argv) = Ok text ->
  Calendar w text = Ok calendar ->
  event ∈ calendar -> begin event = None \/ name event = None ->
  exists e,
    parse_calendar w (path_argument argv) = Raise e
    /\ (exn_class e = AttributeError \/ exn_class e = TypeError)
    /\ main w argv = Outcome [] (Uncaught e).
Proof.
  intros He Hr Hc Hin Hnone.
  destruct (group_events_incomplete calendar ∅ event Hin Hnone)
    as (e & Hg & Hclass).
  assert (parse_calendar w (path_argument argv) = Raise e) as Hp.
  { unfold parse_calendar. rewrite He, Hr. simpl. by rewrite Hc. }
  exists e. split; [done|]. split; [done|].
  rewrite main_unfold, Hp. unfold caught.
  by destruct Hclass as [-> | ->].
Qed.

Lemma incomplete_event_escapes_witness :
  main untitled_world [chars "report"]
  = Outcome []
      (Uncaught (Exn TypeError
                   (chars "argument of type 'NoneType' is not iterable"))).
Proof.
  destruct (incomplete_event_escapes untitled_world [chars "report"]
              (chars "BEGIN:VCALENDAR")
              [ {| begin := Some (DateTime (Date 2024 10 3) 9 0 0);
                   name := Some (chars "Essay [ENGL-1101]") |};
                {| begin := Some (DateTime (Date 2024 10 4) 9 0 0);
                   name := None |} ]
              {| begin := Some (DateTime (Date 2024 10 4) 9 0 0);
                 name := None |}
              eq_refl eq_refl eq_refl)
    as (e & Hp & _ & Hmain).
  - apply list_elem_of_In. right. left. reflexivity.
  - right. reflexivity.
  - assert (@Raise (gmap date (list str)) e
            = Raise (Exn TypeError
                       (chars "argument of type 'NoneType' is not iterable")))
      as [= ->] by (rewrite <- Hp; vm_compute; reflexivity).
    exact Hmain.
Defined.

End further_report.

Section further_cleanup.
Import Py Re CanvasCalendarParser.

(** Bring concatenations to the form [x :: l ++ y :: k ++ ...]. *)
Ltac flat_app :=
  repeat first [ rewrite <- (assoc_L (++)) | rewrite <- app_comm_cons
               | rewrite app_nil_l ].
Ltac flat_app_in H :=
  repeat first [ rewrite <- (assoc_L (++)) in H | rewrite <- app_comm_cons in H
               | rewrite app_nil_l in H ].

Lemma patterns_by_name :
  patterns = [random_id_re; semester_re; lit (chars "_Combined")].
Proof. reflexivity. Qed.

Lemma clean_class_name_steps class_name assignment :
  _clean_class_name class_name assignment
  = sub (lit (chars "_Combined")) []
        (sub semester_re [] (sub random_id_re [] class_name))
    ++ chars ": " ++ assignment.
Proof. reflexivity. Qed.

(** Two texts that start with a run of one class and then leave the class
    agree on the run. *)
Lemma run_split (P : ascii -> bool) (t1 t2 r1 r2 : str) x1 x2 :
  Forall (fun x => P x = true) t1 -> P x1 = false ->
  Forall (fun x => P x = true) t2 -> P x2 = false ->
  t1 ++ x1 :: r1 = t2 ++ x2 :: r2 -> t1 = t2 /\ x1 = x2 /\ r1 = r2.
Proof.
  revert t2. induction t1 as [|y t1 IH]; intros [|z t2] H1 Hx1 H2 Hx2 Heq;
    simpl in Heq.
  - by injection Heq as -> ->.
  - injection Heq as -> _. apply Forall_cons in H2 as [? _]. congruence.
  - injection Heq as <- _. apply Forall_cons in H1 as [? _]. congruence.
  - injection Heq as -> Heq. apply Forall_cons in H1 as [_ H1].
    apply Forall_cons in H2 as [_ H2].
    by destruct (IH _ H1 Hx1 H2 Hx2 Heq) as (-> & -> & ->).
Qed.

Lemma class_facts c :
  (sep c = true -> non_digit c = true /\ letter c = false
                  /\ alnum c = false /\ lower c = false /\ upper c = false)
  /\ (letter c = true -> non_digit c = true /\ sep c = false)
  /\ (lower c = true -> non_digit c = true /\ upper c = false
                        /\ sep c = false)
  /\ (upper c = true -> non_digit c = true /\ lower c = false
                        /\ letter c = true)
  /\ (digit c = true -> non_digit c = false /\ alnum c = true
                        /\ letter c = false /\ sep c = false).
Proof.
  destruct c as [[] [] [] [] [] [] [] []]; vm_compute; intuition congruence.
Qed.

Lemma non_digit_spec c : non_digit c = true <-> digit c = false.
Proof. unfold non_digit. by destruct (digit c). Qed.

(** In a text made of a part without digits, some digits and a part without
    digits, a digit stands among the digits: before it come the first part
    and some digits, after it the other digits and the last part. *)
Lemma after_a_digit (u w P D Q : str) x :
  u ++ x :: w = P ++ D ++ Q -> digit x = true ->
  Forall (fun c => digit c = false) P -> Forall (fun c => digit c = false) Q ->
  exists D1 D2, D = D1 ++ x :: D2 /\ u = P ++ D1 /\ w = D2 ++ Q.
Proof.
  intros Heq Hx HP HQ.
  assert (forall l : str, Forall (fun c => digit c = false) l -> x ∉ l) as Hnot.
  { intros l Hl Hin. rewrite Forall_forall in Hl. specialize (Hl x Hin).
    congruence. }
  apply app_eq_inv in Heq as [(k & Hu & Hk)|(k & HPk & Hk)].
  - symmetry in Hk. apply app_eq_inv in Hk as [(k' & -> & HQk)|(k' & HD & Hk')].
    + destruct (Hnot Q HQ). rewrite HQk. rewrite elem_of_app. right. by left.
    + destruct k' as [|y k'].
      * simpl in Hk'. destruct (Hnot Q HQ). rewrite <- Hk'. by left.
      * injection Hk' as <- ->. by exists k, k'.
  - destruct k as [|y k].
    + simpl in Hk. destruct D as [|d D].
      * simpl in Hk. destruct (Hnot Q HQ). rewrite <- Hk. by left.
      * injection Hk as <- ->. exists [], D.
        by rewrite HPk, !app_nil_r.
    + injection Hk as <- _. destruct (Hnot P HP). rewrite HPk.
      rewrite elem_of_app. right. by left.
Qed.

(** The shape of what the two patterns match. *)
Lemma random_id_inv c a :
  a ∈ matches random_id_re c ->
  exists t1 t2 x t4 t5,
    a.1 = t1 ++ t2 ++ [x] ++ t4 ++ t5
    /\ Forall (fun y => sep y = true) t1
    /\ Forall (fun y => letter y = true) t2
    /\ digit x = true
    /\ Forall (fun y => alnum y = true) t4 /\ 5 <= length t4
    /\ Forall (fun y => sep y = true) t5.
Proof.
  intros Hin. unfold random_id_re in Hin.
  apply matches_Cat_inv in Hin as (a1234 & a5 & Hin & H5 & ->).
  apply matches_Cat_inv in Hin as (a123 & a4 & Hin & H4 & ->).
  apply matches_Cat_inv in Hin as (a12 & a3 & Hin & H3 & ->).
  apply matches_Cat_inv in Hin as (a1 & a2 & H1 & H2 & ->).
  apply rep_Chr_inv in H1 as (F1 & _ & _).
  apply rep_Chr_inv in H2 as (F2 & _ & _).
  apply matches_Chr_inv in H3 as (x & s' & _ & Hx & ->).
  apply rep_Chr_inv in H4 as (F4 & [L4 _] & _).
  apply rep_Chr_inv in H5 as (F5 & _ & _).
  exists a1.1, a2.1, x, a4.1, a5.1. simpl.
  by rewrite <- !(assoc_L (++)).
Qed.

Lemma semester_inv c a :
  a ∈ matches semester_re c ->
  exists t1 u t3 s' t5 t6,
    a.1 = t1 ++ [u] ++ t3 ++ [s'] ++ t5 ++ t6
    /\ Forall (fun y => sep y = true) t1
    /\ upper u = true
    /\ Forall (fun y => lower y = true) t3 /\ t3 <> []
    /\ sep s' = true
    /\ Forall (fun y => digit y = true) t5 /\ length t5 = 4
    /\ Forall (fun y => sep y = true) t6.
Proof.
  intros Hin. unfold semester_re in Hin.
  apply matches_Cat_inv in Hin as (a12345 & a6 & Hin & H6 & ->).
  apply matches_Cat_inv in Hin as (a1234 & a5 & Hin & H5 & ->).
  apply matches_Cat_inv in Hin as (a123 & a4 & Hin & H4 & ->).
  apply matches_Cat_inv in Hin as (a12 & a3 & Hin & H3 & ->).
  apply matches_Cat_inv in Hin as (a1 & a2 & H1 & H2 & ->).
  apply rep_Chr_inv in H1 as (F1 & _ & _).
  apply matches_Chr_inv in H2 as (u & s2 & _ & Hu & ->).
  apply rep_Chr_inv in H3 as (F3 & [L3 _] & _).
  apply matches_Chr_inv in H4 as (s' & s4 & _ & Hs' & ->).
  apply rep_Chr_inv in H5 as (F5 & L5 & _).
  apply rep_Chr_inv in H6 as (F6 & _ & _).
  exists a1.1, u, a3.1, s', a5.1, a6.1. simpl.
  rewrite <- !(assoc_L (++)). repeat split; try done.
  - intros Hnil. rewrite Hnil in L3. simpl in L3. lia.
  - simpl in L5. lia.
Qed.

(** Reading a text piece by piece. *)
Lemma takes_Cat r1 r2 p t1 t2 s :
  takes r1 p t1 (t2 ++ s) -> takes r2 (prev_after p t1) t2 s ->
  takes (Cat r1 r2) p (t1 ++ t2) s.
Proof.
  unfold takes. intros H1 H2. rewrite <- (assoc_L (++)).
  rewrite (head_matches_Cat _ _ _ _ _ H1 H2). unfold extend. cbn [fst snd].
  by rewrite prev_after_app.
Qed.

Lemma takes_Chr cls p x s : cls x = true -> takes (Chr cls) p [x] s.
Proof. intros Hx. unfold takes. by apply head_matches_Chr. Qed.

Lemma takes_Rep cls lo hi p t s :
  Forall (fun x => cls x = true) t ->
  lo <= length t <= default (lo + length (t ++ s)) hi ->
  length t = default (lo + length (t ++ s)) hi
  \/ head (cls <$> s) <> Some true ->
  takes (Rep (Chr cls) lo hi) p t s.
Proof. intros Hall Hlen Hstop. by apply rep_Chr_head. Qed.

Lemma takes_star cls p t s :
  Forall (fun x => cls x = true) t -> head (cls <$> s) <> Some true ->
  takes (star (Chr cls)) p t s.
Proof.
  intros Hall Hstop. apply takes_Rep; [done| |by right].
  simpl. rewrite length_app. lia.
Qed.

Lemma takes_first r p t s :
  takes r p t s ->
  exists a l, matches r (Cursor p (t ++ s) []) = a :: l /\ a.1 = t.
Proof.
  unfold takes. destruct (matches r _) as [|a l]; [done|].
  intros [= ->]. by eexists _, _.
Qed.

Lemma flat_map_gaps (repl u : str) :
  flat_map (fun pc => match pc with Hit _ => repl | Gap c => [c] end)
           (Gap <$> u) = u.
Proof. induction u as [|x u IH]; [done|]. rewrite fmap_cons. simpl. by rewrite IH. Qed.

(** One match in the middle of a text, none before it and none after: the
    match is what [re.sub] replaces. *)
Lemma sub_one_match r (a M b : str) :
  (forall a1 x a2,
      a = a1 ++ x :: a2 ->
      matches r (Cursor (prev_after None a1) (x :: a2 ++ M ++ b) []) = []) ->
  takes r (prev_after None a) M b -> M <> [] ->
  (forall u v p, b = u ++ v -> matches r (Cursor p v []) = []) ->
  sub r [] (a ++ M ++ b) = a ++ b.
Proof.
  intros Hbefore Htakes Hne Hafter. unfold sub.
  rewrite scan_gaps by done.
  destruct (takes_first _ _ _ _ Htakes) as (x & l & Hm & Hx).
  rewrite (scan_hit _ _ _ _ _ _ Hm Hx Hne).
  rewrite scan_all_gaps by (intros u v Huv; by apply (Hafter u v)).
  rewrite flat_map_app, flat_map_gaps. cbn [flat_map app].
  by rewrite flat_map_gaps.
Qed.

Lemma semester_needs_digit : needs_digit semester_re.
Proof. apply needs_digit_Cat_l, needs_digit_Cat_r, (needs_digit_times 3). Qed.

Lemma random_id_needs_digit : needs_digit random_id_re.
Proof.
  apply needs_digit_Cat_l, needs_digit_Cat_l, needs_digit_Cat_r,
    needs_digit_Chr.
Qed.

(** The random-ID pattern needs a digit with five letters or digits after
    it: it finds nothing in a text whose only digits are a run of at most
    five that no letter follows. *)
Lemma random_id_no_match (P D Q u v : str) p cs :
  u ++ v = P ++ D ++ Q ->
  Forall (fun c => digit c = false) P -> Forall (fun c => digit c = false) Q ->
  length D <= 5 ->
  Q = [] \/ (exists q Q', Q = q :: Q' /\ alnum q = false) ->
  matches random_id_re (Cursor p v cs) = [].
Proof.
  intros Heq HP HQ HD Hq.
  destruct (matches random_id_re _) as [|a l] eqn:Hm; [done|].
  assert (a ∈ matches random_id_re (Cursor p v cs)) as Hin
    by (rewrite Hm; left).
  pose proof (matches_consumes _ _ _ Hin) as Hv. simpl in Hv.
  apply random_id_inv in Hin
    as (t1 & t2 & x & t4 & t5 & Ha & _ & _ & Hx & F4 & L4 & _).
  rewrite Ha in Hv. subst v.
  rewrite <- !(assoc_L (++)) in Heq.
  rewrite !(assoc_L (++) _ _ ([x] ++ _)) in Heq.
  apply after_a_digit in Heq as (D1 & D2 & -> & _ & Hw); [|done..].
  rewrite length_app in HD. simpl in HD.
  apply app_eq_inv in Hw as [(k & Ht4 & HQk)|(k & HD2 & _)].
  - destruct k as [|q k].
    + rewrite app_nil_r in Ht4. subst t4. lia.
    + rewrite Ht4 in F4. apply Forall_app in F4 as [_ [Hq' _]%Forall_cons].
      destruct Hq as [->|(q' & Q' & -> & Hq)]; [done|].
      injection HQk as -> _. congruence.
  - rewrite HD2, length_app in HD. lia.
Qed.

Lemma last_in_tail (a1 a2 a' : str) c z :
  a1 ++ c :: a2 = a' ++ [z] -> z ∈ c :: a2.
Proof.
  intros Heq. apply (last_Some_elem_of (c :: a2)).
  assert (last (a1 ++ c :: a2) = Some z) as Hl by (rewrite Heq; apply last_snoc).
  by rewrite last_app_cons in Hl.
Qed.

(** A text that ends in a class run after a character outside the class
    fixes the run. *)
Lemma run_split_r (P : ascii -> bool) (t1 t2 r1 r2 : str) x1 x2 :
  Forall (fun x => P x = true) t1 -> P x1 = false ->
  Forall (fun x => P x = true) t2 -> P x2 = false ->
  r1 ++ x1 :: t1 = r2 ++ x2 :: t2 -> t1 = t2 /\ x1 = x2 /\ r1 = r2.
Proof.
  intros H1 Hx1 H2 Hx2 Heq. apply (f_equal reverse) in Heq.
  rewrite !reverse_app, !reverse_cons, <- !(assoc_L (++)) in Heq.
  simpl in Heq.
  apply (run_split P) in Heq as (Ht & -> & Hr);
    [|by apply Forall_reverse|done|by apply Forall_reverse|done].
  split; [|split; [done|]].
  - by rewrite <- (reverse_involutive t1), Ht, reverse_involutive.
  - by rewrite <- (reverse_involutive r1), Hr, reverse_involutive.
Qed.

Lemma digit_free_non_digit (l : str) :
  Forall (fun c => digit c = false) l -> Forall (fun c => non_digit c = true) l.
Proof.
  intros H. eapply Forall_impl; [done|]. intros c. by rewrite non_digit_spec.
Qed.

Lemma sep_non_digit (l : str) :
  Forall (fun c => sep c = true) l -> Forall (fun c => non_digit c = true) l.
Proof.
  intros H. eapply Forall_impl; [done|]. intros c Hc.
  by apply class_facts in Hc as [? _].
Qed.

Lemma lower_non_digit (l : str) :
  Forall (fun c => lower c = true) l -> Forall (fun c => non_digit c = true) l.
Proof.
  intros H. eapply Forall_impl; [done|]. intros c Hc.
  by apply class_facts in Hc as [? _].
Qed.

Lemma sep_digit_free (l : str) :
  Forall (fun c => sep c = true) l -> Forall (fun c => digit c = false) l.
Proof.
  intros H. eapply Forall_impl; [done|]. intros c Hc. apply non_digit_spec.
  by apply class_facts in Hc as [? _].
Qed.

Lemma lower_digit_free (l : str) :
  Forall (fun c => lower c = true) l -> Forall (fun c => digit c = false) l.
Proof.
  intros H. eapply Forall_impl; [done|]. intros c Hc. apply non_digit_spec.
  by apply class_facts in Hc as [? _].
Qed.

(** No semester identifier starts inside a text without digits that does not
    end with a separator, even when one follows the text. *)
Lemma semester_not_before (a a1 a2 seps lows D seps' b : str) c0 U s p cs :
  a = a1 ++ c0 :: a2 ->
  Forall (fun c => digit c = false) a -> no_sep_at_end a ->
  Forall (fun c => sep c = true) seps -> upper U = true ->
  Forall (fun c => lower c = true) lows -> sep s = true ->
  Forall (fun c => digit c = true) D -> length D = 4 ->
  matches semester_re
    (Cursor p (c0 :: a2 ++ (seps ++ [U] ++ lows ++ [s] ++ D ++ seps') ++ b) cs)
  = [].
Proof.
  intros Ha Hnd Hend Hseps HU Hlows Hs HD LD.
  destruct (matches semester_re _) as [|m l] eqn:Hm; [done|].
  assert (m ∈ m :: l) as Hin by left. rewrite <- Hm in Hin.
  pose proof (matches_consumes _ _ _ Hin) as Hv. cbn [rest] in Hv.
  apply semester_inv in Hin
    as (t1 & u & t3 & s' & t5 & t6 & Hm1 & F1 & Hu & F3 & _ & Hs' & F5 & L5 & _).
  rewrite Hm1 in Hv. clear Hm Hm1.
  destruct t5 as [|y t5]; [done|]. destruct D as [|d1 D]; [done|].
  apply Forall_cons in F5 as [Hy _]. apply Forall_cons in HD as [Hd1 _].
  assert (Forall (fun c => digit c = false) (c0 :: a2)) as Hnd2
    by (rewrite Ha in Hnd; by apply Forall_app in Hnd as [_ ?]).
  assert ((c0 :: a2 ++ seps ++ [U] ++ lows ++ [s]) ++ d1 :: (D ++ seps' ++ b)
          = (t1 ++ [u] ++ t3 ++ [s']) ++ y :: (t5 ++ t6 ++ rest m.2)) as Heq.
  { flat_app_in Hv. flat_app. exact Hv. }
  apply (run_split non_digit) in Heq as (Hpre & _ & _).
  - rewrite !app_comm_cons, !(assoc_L (++)) in Hpre.
    apply app_inj_tail in Hpre as [Hpre _].
    rewrite <- !(assoc_L (++)) in Hpre. simpl in Hpre.
    rewrite (app_comm_cons a2), (assoc_L (++) (c0 :: a2)) in Hpre.
    apply (run_split_r lower) in Hpre as (_ & _ & Ht1);
      [|done|by apply class_facts in HU as (_ & ? & _)
        |done|by apply class_facts in Hu as (_ & ? & _)].
    rewrite <- Ht1 in F1. apply Forall_app in F1 as [F1 _].
    destruct Hend as [->|(a' & z & -> & Hz)]; [by destruct a1|].
    symmetry in Ha. apply last_in_tail in Ha. rewrite Forall_forall in F1.
    specialize (F1 z Ha). congruence.
  - rewrite app_comm_cons, !Forall_app. repeat split.
    + by apply digit_free_non_digit.
    + by apply sep_non_digit.
    + constructor; [|done]. by apply class_facts in HU as [? _].
    + by apply lower_non_digit.
    + constructor; [|done]. by apply class_facts in Hs as [? _].
  - by apply class_facts in Hd1 as [? _].
  - rewrite !Forall_app. repeat split.
    + by apply sep_non_digit.
    + constructor; [|done]. by apply class_facts in Hu as [? _].
    + by apply lower_non_digit.
    + constructor; [|done]. by apply class_facts in Hs' as [? _].
  - by apply class_facts in Hy as [? _].
Qed.

Lemma clear_start_head (cls : ascii -> bool) (b : str) :
  clear_start b -> (forall q, cls q = true -> sep q = true \/ alnum q = true) ->
  head (cls <$> b) <> Some true.
Proof.
  intros [->|(q & b' & -> & Hs & Ha)] Hcls; [done|]. simpl. intros [= Hq].
  destruct (Hcls q Hq); congruence.
Qed.

(** Where a semester identifier stands, the pattern takes all of it with the
    separators around it. *)
Lemma semester_takes (seps lows D seps' b : str) U s p :
  Forall (fun c => sep c = true) seps -> upper U = true ->
  Forall (fun c => lower c = true) lows -> lows <> [] -> sep s = true ->
  Forall (fun c => digit c = true) D -> length D = 4 ->
  Forall (fun c => sep c = true) seps' -> clear_start b ->
  takes semester_re p (seps ++ [U] ++ lows ++ [s] ++ D ++ seps') b.
Proof.
  intros Hseps HU Hlows Hne Hs HD LD Hseps' Hb.
  rewrite !(assoc_L (++)). unfold semester_re.
  repeat apply takes_Cat.
  - apply takes_star; [done|]. simpl.
    by destruct (upper_facts _ HU) as (_ & -> & _).
  - by apply takes_Chr.
  - apply takes_Rep; [done| |right].
    + simpl. rewrite length_app. destruct lows; [done|]. simpl. lia.
    + simpl. by apply class_facts in Hs as (_ & _ & _ & -> & _).
  - by apply takes_Chr.
  - apply takes_Rep; [done|simpl; lia|by left].
  - apply takes_star; [done|]. apply clear_start_head; [done|]. by left.
Qed.

(** The cleanup of a name that holds one semester identifier. *)
Lemma clean_semester (a seps lows D seps' b : str) U s assignment :
  Forall (fun c => digit c = false) a -> no_sep_at_end a ->
  Forall (fun c => sep c = true) seps -> upper U = true ->
  Forall (fun c => lower c = true) lows -> lows <> [] -> sep s = true ->
  Forall (fun c => digit c = true) D -> length D = 4 ->
  Forall (fun c => sep c = true) seps' ->
  Forall (fun c => digit c = false) b -> clear_start b ->
  _clean_class_name
    (a ++ (seps ++ [U] ++ lows ++ [s] ++ D ++ seps') ++ b) assignment
  = replace (chars "_Combined") [] (a ++ b) ++ chars ": " ++ assignment.
Proof.
  intros Ha Hend Hseps HU Hlows Hne Hs HD LD Hseps' Hb Hstart.
  rewrite clean_class_name_steps.
  rewrite (sub_no_match random_id_re).
  2:{ intros u v Huv.
      apply (random_id_no_match (a ++ seps ++ [U] ++ lows ++ [s]) D
               (seps' ++ b) u v); [| | |lia|].
      - rewrite <- Huv. by rewrite <- !(assoc_L (++)).
      - rewrite !Forall_app. repeat split; try done.
        + by apply sep_digit_free.
        + constructor; [|done]. apply non_digit_spec.
          by apply class_facts in HU as [? _].
        + by apply lower_digit_free.
        + constructor; [|done]. apply non_digit_spec.
          by apply class_facts in Hs as [? _].
      - apply Forall_app. split; [by apply sep_digit_free|done].
      - destruct seps' as [|q seps']; simpl.
        + destruct Hstart as [->|(q & b' & -> & _ & Hq)]; [by left|].
          right. by exists q, b'.
        + right. exists q, (seps' ++ b). split; [done|].
          apply Forall_cons in Hseps' as [Hq _].
          by apply class_facts in Hq as (_ & _ & ? & _). }
  rewrite (sub_one_match semester_re).
  - by rewrite sub_lit.
  - intros a1 x a2 Ha12. by apply (semester_not_before a a1 a2).
  - by apply semester_takes.
  - by destruct seps.
  - intros u v p Huv. apply no_digit_no_match; [apply semester_needs_digit|].
    rewrite Huv in Hb. by apply Forall_app in Hb as [_ ?].
Qed.

(** A semester identifier after a text without digits: [_clean_class_name]
    takes it out with the separators around it, and then every
    ["_Combined"]. *)
Theorem semester_removed (a seps lows D seps' b : str) U s assignment :
  Forall (fun c => digit c = false) a -> no_sep_at_end a ->
  Forall (fun c => sep c = true) seps -> upper U = true ->
  Forall (fun c => lower c = true) lows -> lows <> [] -> sep s = true ->
  Forall (fun c => digit c = true) D -> length D = 4 ->
  Forall (fun c => sep c = true) seps' ->
  Forall (fun c => digit c = false) b -> clear_start b ->
  _clean_class_name
    (a ++ (seps ++ [U] ++ lows ++ [s] ++ D ++ seps') ++ b) assignment
  = replace (chars "_Combined") [] (a ++ b) ++ chars ": " ++ assignment.
Proof. apply clean_semester. Qed.

Lemma semester_removed_witness :
  _clean_class_name (chars "Calculus III - Fall 2024_Combined")
                    (chars "Homework 3")
  = chars "Calculus III: Homework 3".
Proof.
  refine (semester_removed (chars "Calculus III") (chars " - ") (chars "all")
            (chars "2024") [] (chars "_Combined") "F"%char " "%char
            (chars "Homework 3") _ _ _ _ _ _ _ _ _ _ _ _);
    first [ reflexivity | discriminate
          | right; by exists (chars "Calculus II"), "I"%char
          | right; by exists "_"%char, (chars "Combined")
          | repeat constructor ].
Defined.

Lemma letter_non_digit (l : str) :
  Forall (fun c => letter c = true) l -> Forall (fun c => non_digit c = true) l.
Proof.
  intros H. eapply Forall_impl; [done|]. intros c Hc.
  by apply class_facts in Hc as [? _].
Qed.

Lemma tail_snoc (a1 a2 a' : str) c z :
  a1 ++ c :: a2 = a' ++ [z] -> exists k, c :: a2 = k ++ [z].
Proof.
  intros Heq. apply last_Some.
  assert (last (a1 ++ c :: a2) = Some z) as Hl by (rewrite Heq; apply last_snoc).
  by rewrite last_app_cons in Hl.
Qed.

(** No random ID starts inside a text without digits that does not end with
    a separator, when separators come between the text and the ID. *)
Lemma random_id_not_before (a a1 a2 seps letters tail : str) c0 x p cs :
  a = a1 ++ c0 :: a2 ->
  Forall (fun c => digit c = false) a -> no_sep_at_end a ->
  Forall (fun c => sep c = true) seps -> seps <> [] ->
  Forall (fun c => letter c = true) letters -> digit x = true ->
  matches random_id_re
    (Cursor p (c0 :: a2 ++ (seps ++ letters ++ [x] ++ tail)) cs)
  = [].
Proof.
  intros Ha Hnd Hend Hseps Hne Hlet Hx.
  destruct (matches random_id_re _) as [|m l] eqn:Hm; [done|].
  assert (m ∈ m :: l) as Hin by left. rewrite <- Hm in Hin.
  pose proof (matches_consumes _ _ _ Hin) as Hv. cbn [rest] in Hv.
  apply random_id_inv in Hin
    as (t1 & t2 & y & t4 & t5 & Hm1 & F1 & F2 & Hy & _).
  rewrite Hm1 in Hv. clear Hm Hm1.
  assert (Forall (fun c => digit c = false) (c0 :: a2)) as Hnd2
    by (rewrite Ha in Hnd; by apply Forall_app in Hnd as [_ ?]).
  assert ((c0 :: a2 ++ seps ++ letters) ++ x :: tail
          = (t1 ++ t2) ++ y :: (t4 ++ t5 ++ rest m.2)) as Heq.
  { flat_app_in Hv. flat_app. exact Hv. }
  apply (run_split non_digit) in Heq as (Hpre & _ & _).
  - destruct Hend as [->|(a' & z & -> & Hz)]; [by destruct a1|].
    symmetry in Ha. apply tail_snoc in Ha as [k Hk].
    destruct seps as [|q seps]; [done|].
    apply Forall_cons in Hseps as [Hq _].
    rewrite app_comm_cons, Hk in Hpre.
    rewrite <- (app_comm_cons seps) in Hpre.
    apply app_eq_inv in Hpre as [(k' & _ & Ht2)|(k' & Ht1 & _)].
    + rewrite Ht2 in F2. apply Forall_app in F2 as [_ [Hq' _]%Forall_cons].
      apply class_facts in Hq as (_ & ? & _). congruence.
    + rewrite Ht1 in F1.
      apply Forall_app in F1 as [[_ [Hz' _]%Forall_cons]%Forall_app _].
      congruence.
  - rewrite app_comm_cons, !Forall_app. repeat split.
    + by apply digit_free_non_digit.
    + by apply sep_non_digit.
    + by apply letter_non_digit.
  - by apply class_facts in Hx as [? _].
  - apply Forall_app. split; [by apply sep_non_digit|by apply letter_non_digit].
  - by apply class_facts in Hy as [? _].
Qed.

(** Where a random ID stands, the pattern takes all of it with the
    separators around it. *)
Lemma random_id_takes (seps letters alnums seps' b : str) x p :
  Forall (fun c => sep c = true) seps ->
  Forall (fun c => letter c = true) letters -> digit x = true ->
  Forall (fun c => alnum c = true) alnums -> 5 <= length alnums ->
  Forall (fun c => sep c = true) seps' -> clear_start b ->
  takes random_id_re p (seps ++ letters ++ [x] ++ alnums ++ seps') b.
Proof.
  intros Hseps Hlet Hx Haln Hlen Hseps' Hb.
  rewrite !(assoc_L (++)). unfold random_id_re.
  repeat apply takes_Cat.
  - apply takes_star; [done|]. destruct letters as [|q letters]; simpl.
    + by apply class_facts in Hx as (_ & _ & _ & ->).
    + apply Forall_cons in Hlet as [Hq _].
      by apply class_facts in Hq as [_ ->].
  - apply takes_star; [done|]. simpl.
    by apply class_facts in Hx as (_ & _ & -> & _).
  - by apply takes_Chr.
  - apply takes_Rep; [done| |right].
    + simpl. rewrite length_app. lia.
    + destruct seps' as [|q seps']; simpl.
      * apply clear_start_head; [done|]. by right.
      * apply Forall_cons in Hseps' as [Hq _].
        by apply class_facts in Hq as (_ & _ & -> & _).
  - apply takes_star; [done|]. apply clear_start_head; [done|]. by left.
Qed.

(** A random ID after a text without digits and some separators:
    [_clean_class_name] takes it out with the separators around it, and
    then every ["_Combined"]. *)
Theorem random_id_removed (a seps letters alnums seps' b : str) x assignment :
  Forall (fun c => digit c = false) a -> no_sep_at_end a ->
  Forall (fun c => sep c = true) seps -> seps <> [] ->
  Forall (fun c => letter c = true) letters -> digit x = true ->
  Forall (fun c => alnum c = true) alnums -> 5 <= length alnums ->
  Forall (fun c => sep c = true) seps' ->
  Forall (fun c => digit c = false) b -> clear_start b ->
  _clean_class_name
    (a ++ (seps ++ letters ++ [x] ++ alnums ++ seps') ++ b) assignment
  = replace (chars "_Combined") [] (a ++ b) ++ chars ": " ++ assignment.
Proof.
  intros Ha Hend Hseps Hne Hlet Hx Haln Hlen Hseps' Hb Hstart.
  rewrite clean_class_name_steps.
  rewrite (sub_one_match random_id_re).
  - rewrite (sub_no_digit semester_re);
      [|apply semester_needs_digit|by apply Forall_app].
    by rewrite sub_lit.
  - intros a1 c0 a2 Ha12. rewrite <- !(assoc_L (++)).
    by apply (random_id_not_before a a1 a2).
  - by apply random_id_takes.
  - by destruct seps.
  - intros u v p Huv. apply no_digit_no_match; [apply random_id_needs_digit|].
    rewrite Huv in Hb. by apply Forall_app in Hb as [_ ?].
Qed.

Lemma random_id_removed_witness :
  _clean_class_name (chars "Intro to Biology - x7k2m9q4") (chars "Lab 2")
  = chars "Intro to Biology: Lab 2".
Proof.
  refine (random_id_removed (chars "Intro to Biology") (chars " - ")
            (chars "x") (chars "k2m9q4") [] [] "7"%char (chars "Lab 2")
            _ _ _ _ _ _ _ _ _ _ _);
    first [ reflexivity | discriminate | by left | simpl; lia
          | right; by exists (chars "Intro to Biolog"), "y"%char
          | repeat constructor ].
Defined.

(** The shape of what the course-code pattern matches. *)
Lemma class_slug_inv c m :
  m ∈ matches class_slug_re c ->
  exists tU s' tD tO,
    m.1 = tU ++ [s'] ++ tD ++ tO
    /\ Forall (fun y => upper y = true) tU /\ 3 <= length tU
    /\ sep s' = true
    /\ Forall (fun y => digit y = true) tD /\ length tD = 4.
Proof.
  intros Hin. unfold class_slug_re in Hin. simpl in Hin.
  apply list_elem_of_fmap in Hin as (m' & -> & Hin).
  change (m' ∈ matches (between 3 4 (Chr upper) ⋅ Chr sep
                        ⋅ times 4 (Chr digit)
                        ⋅ between 0 1 suffix_re)%re c) in Hin.
  apply matches_Cat_inv in Hin as (a123 & a4 & Hin & _ & ->).
  apply matches_Cat_inv in Hin as (a12 & a3 & Hin & H3 & ->).
  apply matches_Cat_inv in Hin as (a1 & a2 & H1 & H2 & ->).
  apply rep_Chr_inv in H1 as (F1 & [L1 _] & _).
  apply matches_Chr_inv in H2 as (s' & s2 & _ & Hs' & ->).
  apply rep_Chr_inv in H3 as (F3 & L3 & _).
  exists a1.1, s', a3.1, a4.1. simpl. rewrite <- !(assoc_L (++)).
  repeat split; try done. simpl in L3. lia.
Qed.

(** There is no course code in a text whose only digits follow a lower-case
    letter and a separator. *)
Lemma no_class_slug_after_lower (P0 lows D Q : str) s :
  Forall (fun c => digit c = false) P0 ->
  Forall (fun c => lower c = true) lows -> lows <> [] -> sep s = true ->
  Forall (fun c => digit c = true) D ->
  Forall (fun c => digit c = false) Q ->
  search class_slug_re (P0 ++ lows ++ [s] ++ D ++ Q) = None.
Proof.
  intros HP0 Hlows Hne Hs HD HQ. apply search_from_none. intros u v Huv.
  destruct (matches class_slug_re _) as [|m l] eqn:Hm; [done|].
  assert (m ∈ m :: l) as Hin by left. rewrite <- Hm in Hin.
  pose proof (matches_consumes _ _ _ Hin) as Hv. cbn [rest] in Hv.
  apply class_slug_inv in Hin
    as (tU & s' & tD & tO & Hm1 & FU & LU & Hs' & FD & LD).
  rewrite Hm1 in Hv. clear Hm Hm1. subst v.
  destruct tD as [|y tD]; [done|]. apply Forall_cons in FD as [Hy _].
  assert ((u ++ tU ++ [s']) ++ y :: (tD ++ tO ++ rest m.2)
          = (P0 ++ lows ++ [s]) ++ D ++ Q) as Heq.
  { flat_app_in Huv. flat_app. symmetry. exact Huv. }
  apply after_a_digit in Heq as (D1 & D2 & -> & Hu & _); [|done| |done].
  - destruct (decide (D1 = [])) as [->|HD1].
    + rewrite app_nil_r, !(assoc_L (++)) in Hu.
      apply app_inj_tail in Hu as [Hu _].
      destruct (last tU) as [c|] eqn:HlU;
        [|apply last_None in HlU as ->; simpl in LU; lia].
      apply last_Some in HlU as [tU' ->].
      destruct (last lows) as [c'|] eqn:Hll; [|by apply last_None in Hll].
      apply last_Some in Hll as [lows' ->].
      rewrite !(assoc_L (++)) in Hu. apply app_inj_tail in Hu as [_ ->].
      apply Forall_app in FU as [_ [Hc _]%Forall_cons].
      apply Forall_app in Hlows as [_ [Hc' _]%Forall_cons].
      apply class_facts in Hc as (_ & ? & _). congruence.
    + destruct (last D1) as [d|] eqn:Hl; [|by apply last_None in Hl].
      apply last_Some in Hl as [D1' ->].
      rewrite !(assoc_L (++)) in Hu. apply app_inj_tail in Hu as [_ ->].
      apply Forall_app in HD as [[_ [Hd _]%Forall_cons]%Forall_app _].
      apply class_facts in Hs' as [?%non_digit_spec _]. congruence.
  - rewrite !Forall_app. repeat split; try done.
    + by apply lower_digit_free.
    + constructor; [|done]. apply non_digit_spec.
      by apply class_facts in Hs as [? _].
Qed.

Lemma lower_no_bracket (l : str) :
  Forall (fun c => lower c = true) l -> Forall (fun c => no_bracket c = true) l.
Proof.
  intros H. eapply Forall_impl; [done|]. intros c.
  destruct c as [[] [] [] [] [] [] [] []]; vm_compute; congruence.
Qed.

Lemma sep_no_bracket (l : str) :
  Forall (fun c => sep c = true) l -> Forall (fun c => no_bracket c = true) l.
Proof.
  intros H. eapply Forall_impl; [done|]. intros c Hc.
  by apply sep_facts in Hc as [? _].
Qed.

Lemma digit_no_bracket (l : str) :
  Forall (fun c => digit c = true) l -> Forall (fun c => no_bracket c = true) l.
Proof.
  intros H. eapply Forall_impl; [done|]. intros c Hc.
  by apply digit_facts in Hc as [? _].
Qed.

(** A title whose one block is a name, a semester identifier and more
    text.  When the name has no digit and does not end with a separator, and
    the text after the identifier has no digit and does not start with a
    separator, a letter or a digit, no course code is found in the block and
    the label is the name and that text with every ["_Combined"] removed. *)
Theorem semester_block_label pre post (a seps lows D seps' b : str) U s :
  Forall (fun x => no_bracket x = true) pre ->
  Forall (fun x => no_bracket x = true) post ->
  Forall (fun x => no_bracket x = true) a ->
  Forall (fun x => no_bracket x = true) b ->
  Forall (fun c => digit c = false) a -> no_sep_at_end a ->
  Forall (fun c => sep c = true) seps -> upper U = true ->
  Forall (fun c => lower c = true) lows -> lows <> [] -> sep s = true ->
  Forall (fun c => digit c = true) D -> length D = 4 ->
  Forall (fun c => sep c = true) seps' ->
  Forall (fun c => digit c = false) b -> clear_start b ->
  _format_event
    (pre ++ chars "["
     ++ (a ++ (seps ++ [U] ++ lows ++ [s] ++ D ++ seps') ++ b)
     ++ chars "]" ++ post)
  = Ok (replace (chars "_Combined") [] (a ++ b) ++ chars ": "
        ++ strip (pre ++ post)).
Proof.
  intros Hpre Hpost Hba Hbb Ha Hend Hseps HU Hlows Hne Hs HD LD Hseps' Hb Hst.
  rewrite format_event_one_block; [|done| |..|done].
  - unfold class_label.
    replace (a ++ (seps ++ [U] ++ lows ++ [s] ++ D ++ seps') ++ b)
      with ((a ++ seps ++ [U]) ++ lows ++ [s] ++ D ++ seps' ++ b) at 1
      by (by rewrite <- !(assoc_L (++))).
    rewrite no_class_slug_after_lower; try done.
    + pose proof (clean_semester a seps lows D seps' b U s []
                    Ha Hend Hseps HU Hlows Hne Hs HD LD Hseps' Hb Hst) as Hc.
      unfold _clean_class_name in Hc. apply app_inv_tail in Hc.
      by rewrite Hc.
    + rewrite !Forall_app. repeat split; try done.
      * by apply sep_digit_free.
      * constructor; [|done]. apply non_digit_spec.
        by apply class_facts in HU as [? _].
    + apply Forall_app. split; [by apply sep_digit_free|done].
  - by destruct a, seps.
  - rewrite !Forall_app. repeat split; try done.
    + by apply sep_no_bracket.
    + constructor; [|done]. by apply upper_facts in HU as [? _].
    + by apply lower_no_bracket.
    + constructor; [|done]. by apply sep_facts in Hs as [? _].
    + by apply digit_no_bracket.
    + by apply sep_no_bracket.
Qed.

Lemma semester_block_label_witness :
  _format_event (chars "Homework 3 [Calculus III - Fall 2024_Combined]")
  = Ok (chars "Calculus III: Homework 3").
Proof.
  refine (semester_block_label (chars "Homework 3 ") [] (chars "Calculus III")
            (chars " - ") (chars "all") (chars "2024") [] (chars "_Combined")
            "F"%char " "%char _ _ _ _ _ _ _ _ _ _ _ _ _ _ _ _);
    first [ reflexivity | discriminate
          | right; by exists (chars "Calculus II"), "I"%char
          | right; by exists "_"%char, (chars "Combined")
          | repeat constructor ].
Defined.

End further_cleanup.
